(** * IFRS 9 quarterly portfolio generator: risk parameters, staging, ECL
      and the Q3 -> Q4 evolution of [generate_quarterly_data.py].

    The development is a shallow embedding of the Python module.
    - A pandas DataFrame is a [list] of rows ([LoanRecord]); the default
      [RangeIndex] makes the index label of a row its position.
    - Python floats and numpy float64 are IEEE 754 binary64: Rocq's
      primitive [float], so that every product, comparison and rounding
      below is the one the interpreter performs.
    - Python ints and int64 columns are [Z].
    - [np.random] is a global generator: it is threaded explicitly through
      a state-and-exception monad, the generator itself being an interface
      ([RandomState]) with the operations the module reaches. *)

From Stdlib Require Import ZArith QArith Qminmax Floats Uint63 Permutation Ascii.
From stdpp Require Import list strings gmap pretty.

Set Warnings "-inexact-float".

(** ** Python and numpy primitives *)

Module Py.

(** Conversion of an int (an int64 column entry, a [len]) to float, as
    mixed int/float arithmetic performs it: the nearest binary64, for
    magnitudes below 2^63. *)
Definition float_of_int (z : Z) : float :=
  match z with
  | Z0 => 0%float
  | Zpos _ => PrimFloat.of_uint63 (Uint63.of_Z z)
  | Zneg p => (- PrimFloat.of_uint63 (Uint63.of_Z (Zpos p)))%float
  end.

(** Builtin [min(a, b)]: [b] is taken only when [b < a]. *)
Definition min (a b : float) : float := if (b <? a)%float then b else a.

(** Builtin [max(a, b)]: [b] is taken only when [b > a]. *)
Definition max (a b : float) : float := if (a <? b)%float then b else a.

Definition two52 : float := 4503599627370496%float.

(** [rint] on non-negative input: round to the nearest integer, ties to
    even, by the 2^52 shift of the C library. *)
Definition rint_abs (x : float) : float :=
  if (x <? two52)%float then (x + two52 - two52)%float else x.

(** [np.rint]. The sign is kept, so that [rint (-0.3)] is [-0.0]; nan
    fails both comparisons and is returned. *)
Definition rint (x : float) : float :=
  if (x <? 0)%float then (- rint_abs (- x))%float
  else if (0 <? x)%float then rint_abs x
  else x.

(** [Series.round(decimals)] for a float column and [decimals > 0]:
    numpy multiplies by [10**decimals], applies [rint] and divides. *)
Definition round (decimals : nat) (x : float) : float :=
  let f := float_of_int (10 ^ Z.of_nat decimals) in
  (rint (x * f) / f)%float.

Inductive exn : Set :=
| ValueError (msg : string)
| OverflowError (msg : string)
| IndexError (msg : string)
| KeyError (msg : string).

(** Builtin [int(x)] on a float: truncation toward zero; nan and the
    infinities raise. *)
Definition int (x : float) : exn + Z :=
  match Prim2SF x with
  | S754_zero _ => inr 0%Z
  | S754_finite s m e =>
      let a := match e with
               | Zneg k => Z.shiftr (Zpos m) (Zpos k)
               | _ => Z.shiftl (Zpos m) e
               end in
      inr (if s then (- a)%Z else a)
  | S754_infinity _ => inl (OverflowError "cannot convert float infinity to integer")
  | S754_nan => inl (ValueError "cannot convert float NaN to integer")
  end.

End Py.

(** ** The data model *)

Record date := Date { year : Z; month : Z; day : Z }.

(** One row of the portfolio frame, with the eighteen columns of the
    snapshot schema. *)
Record LoanRecord := {
  loan_id : string;
  reporting_date : date;
  product_type : string;
  origination_date : date;
  original_amount : float;
  outstanding_balance : float;
  credit_score_origination : Z;
  credit_score_current : Z;
  days_past_due : Z;
  interest_rate : float;
  industry_sector : string;
  geography : string;
  pd_12m : float;
  pd_lifetime : float;
  lgd : float;
  ifrs9_stage : Z;
  ecl_amount : float;
  ecl_rate : float
}.

(** A frame with the default index: row [i] carries the label [i]. *)
Abbreviation DataFrame := (list LoanRecord).

(** Column writes, one per column the module assigns. *)
Definition set_reporting_date (v : date) (r : LoanRecord) : LoanRecord :=
  {| loan_id := loan_id r; reporting_date := v; product_type := product_type r;
     origination_date := origination_date r; original_amount := original_amount r;
     outstanding_balance := outstanding_balance r;
     credit_score_origination := credit_score_origination r;
     credit_score_current := credit_score_current r;
     days_past_due := days_past_due r; interest_rate := interest_rate r;
     industry_sector := industry_sector r; geography := geography r;
     pd_12m := pd_12m r; pd_lifetime := pd_lifetime r; lgd := lgd r;
     ifrs9_stage := ifrs9_stage r; ecl_amount := ecl_amount r; ecl_rate := ecl_rate r |}.

Definition set_outstanding_balance (v : float) (r : LoanRecord) : LoanRecord :=
  {| loan_id := loan_id r; reporting_date := reporting_date r; product_type := product_type r;
     origination_date := origination_date r; original_amount := original_amount r;
     outstanding_balance := v;
     credit_score_origination := credit_score_origination r;
     credit_score_current := credit_score_current r;
     days_past_due := days_past_due r; interest_rate := interest_rate r;
     industry_sector := industry_sector r; geography := geography r;
     pd_12m := pd_12m r; pd_lifetime := pd_lifetime r; lgd := lgd r;
     ifrs9_stage := ifrs9_stage r; ecl_amount := ecl_amount r; ecl_rate := ecl_rate r |}.

Definition set_credit_score_current (v : Z) (r : LoanRecord) : LoanRecord :=
  {| loan_id := loan_id r; reporting_date := reporting_date r; product_type := product_type r;
     origination_date := origination_date r; original_amount := original_amount r;
     outstanding_balance := outstanding_balance r;
     credit_score_origination := credit_score_origination r;
     credit_score_current := v;
     days_past_due := days_past_due r; interest_rate := interest_rate r;
     industry_sector := industry_sector r; geography := geography r;
     pd_12m := pd_12m r; pd_lifetime := pd_lifetime r; lgd := lgd r;
     ifrs9_stage := ifrs9_stage r; ecl_amount := ecl_amount r; ecl_rate := ecl_rate r |}.

Definition set_days_past_due (v : Z) (r : LoanRecord) : LoanRecord :=
  {| loan_id := loan_id r; reporting_date := reporting_date r; product_type := product_type r;
     origination_date := origination_date r; original_amount := original_amount r;
     outstanding_balance := outstanding_balance r;
     credit_score_origination := credit_score_origination r;
     credit_score_current := credit_score_current r;
     days_past_due := v; interest_rate := interest_rate r;
     industry_sector := industry_sector r; geography := geography r;
     pd_12m := pd_12m r; pd_lifetime := pd_lifetime r; lgd := lgd r;
     ifrs9_stage := ifrs9_stage r; ecl_amount := ecl_amount r; ecl_rate := ecl_rate r |}.

Definition set_pd_12m (v : float) (r : LoanRecord) : LoanRecord :=
  {| loan_id := loan_id r; reporting_date := reporting_date r; product_type := product_type r;
     origination_date := origination_date r; original_amount := original_amount r;
     outstanding_balance := outstanding_balance r;
     credit_score_origination := credit_score_origination r;
     credit_score_current := credit_score_current r;
     days_past_due := days_past_due r; interest_rate := interest_rate r;
     industry_sector := industry_sector r; geography := geography r;
     pd_12m := v; pd_lifetime := pd_lifetime r; lgd := lgd r;
     ifrs9_stage := ifrs9_stage r; ecl_amount := ecl_amount r; ecl_rate := ecl_rate r |}.

Definition set_pd_lifetime (v : float) (r : LoanRecord) : LoanRecord :=
  {| loan_id := loan_id r; reporting_date := reporting_date r; product_type := product_type r;
     origination_date := origination_date r; original_amount := original_amount r;
     outstanding_balance := outstanding_balance r;
     credit_score_origination := credit_score_origination r;
     credit_score_current := credit_score_current r;
     days_past_due := days_past_due r; interest_rate := interest_rate r;
     industry_sector := industry_sector r; geography := geography r;
     pd_12m := pd_12m r; pd_lifetime := v; lgd := lgd r;
     ifrs9_stage := ifrs9_stage r; ecl_amount := ecl_amount r; ecl_rate := ecl_rate r |}.

Definition set_lgd (v : float) (r : LoanRecord) : LoanRecord :=
  {| loan_id := loan_id r; reporting_date := reporting_date r; product_type := product_type r;
     origination_date := origination_date r; original_amount := original_amount r;
     outstanding_balance := outstanding_balance r;
     credit_score_origination := credit_score_origination r;
     credit_score_current := credit_score_current r;
     days_past_due := days_past_due r; interest_rate := interest_rate r;
     industry_sector := industry_sector r; geography := geography r;
     pd_12m := pd_12m r; pd_lifetime := pd_lifetime r; lgd := v;
     ifrs9_stage := ifrs9_stage r; ecl_amount := ecl_amount r; ecl_rate := ecl_rate r |}.

Definition set_ifrs9_stage (v : Z) (r : LoanRecord) : LoanRecord :=
  {| loan_id := loan_id r; reporting_date := reporting_date r; product_type := product_type r;
     origination_date := origination_date r; original_amount := original_amount r;
     outstanding_balance := outstanding_balance r;
     credit_score_origination := credit_score_origination r;
     credit_score_current := credit_score_current r;
     days_past_due := days_past_due r; interest_rate := interest_rate r;
     industry_sector := industry_sector r; geography := geography r;
     pd_12m := pd_12m r; pd_lifetime := pd_lifetime r; lgd := lgd r;
     ifrs9_stage := v; ecl_amount := ecl_amount r; ecl_rate := ecl_rate r |}.

Definition set_ecl_amount (v : float) (r : LoanRecord) : LoanRecord :=
  {| loan_id := loan_id r; reporting_date := reporting_date r; product_type := product_type r;
     origination_date := origination_date r; original_amount := original_amount r;
     outstanding_balance := outstanding_balance r;
     credit_score_origination := credit_score_origination r;
     credit_score_current := credit_score_current r;
     days_past_due := days_past_due r; interest_rate := interest_rate r;
     industry_sector := industry_sector r; geography := geography r;
     pd_12m := pd_12m r; pd_lifetime := pd_lifetime r; lgd := lgd r;
     ifrs9_stage := ifrs9_stage r; ecl_amount := v; ecl_rate := ecl_rate r |}.

Definition set_ecl_rate (v : float) (r : LoanRecord) : LoanRecord :=
  {| loan_id := loan_id r; reporting_date := reporting_date r; product_type := product_type r;
     origination_date := origination_date r; original_amount := original_amount r;
     outstanding_balance := outstanding_balance r;
     credit_score_origination := credit_score_origination r;
     credit_score_current := credit_score_current r;
     days_past_due := days_past_due r; interest_rate := interest_rate r;
     industry_sector := industry_sector r; geography := geography r;
     pd_12m := pd_12m r; pd_lifetime := pd_lifetime r; lgd := lgd r;
     ifrs9_stage := ifrs9_stage r; ecl_amount := ecl_amount r; ecl_rate := v |}.

(** [df[col] = df.apply(f, axis=1)]: [f] is evaluated on every row, in
    row order, and the results are written into column [col]. (pandas
    treats a frame without rows apart; the model is meant for frames
    that have rows.) *)
Definition assign_apply {V} (set : V → LoanRecord → LoanRecord)
    (f : LoanRecord → V) (df : DataFrame) : DataFrame :=
  (λ row, set (f row) row) <$> df.

(** ** Deterministic risk parameters *)

(** The literal dict of [calculate_12m_pd]. *)
Definition product_adj : gmap string float :=
  {[ "Mortgage" := 0.7%float;
     "Auto Loan" := 0.9%float;
     "Personal Loan" := 1.2%float;
     "Credit Card" := 1.5%float;
     "SME Loan" := 1.3%float ]}.

Definition calculate_12m_pd (row : LoanRecord) : float :=
  let base_pd :=
    if (750 <=? credit_score_current row)%Z then 0.005%float
    else if (700 <=? credit_score_current row)%Z then 0.01%float
    else if (650 <=? credit_score_current row)%Z then 0.025%float
    else if (600 <=? credit_score_current row)%Z then 0.05%float
    else 0.10%float in
  let dpd_multiplier :=
    if (days_past_due row =? 0)%Z then 1.0%float
    else if (days_past_due row <=? 30)%Z then 2.0%float
    else if (days_past_due row <=? 90)%Z then 4.0%float
    else 8.0%float in
  let pd := (base_pd * dpd_multiplier
             * default 1.0%float (product_adj !! product_type row))%float in
  Py.min pd 1.0%float.

Definition calculate_lifetime_pd (row : LoanRecord) : float :=
  Py.min (pd_12m row * 3.0)%float 1.0%float.

(** ** Staging *)

Definition determine_stage (row : LoanRecord) : Z :=
  if (90 <? days_past_due row)%Z then 3%Z
  else
    let credit_score_drop :=
      (credit_score_origination row - credit_score_current row)%Z in
    let pd_increase := (0.03 <? pd_12m row)%float in
    if (30 <=? days_past_due row)%Z || (100 <? credit_score_drop)%Z || pd_increase
    then 2%Z
    else 1%Z.

Definition assign_ifrs9_stage (df : DataFrame) : DataFrame :=
  assign_apply set_ifrs9_stage determine_stage df.

(** ** Expected credit loss *)

Definition calc_ecl (row : LoanRecord) : float :=
  let ead := outstanding_balance row in
  if (ifrs9_stage row =? 1)%Z
  then (ead * pd_12m row * lgd row)%float
  else (ead * pd_lifetime row * lgd row)%float.

(** The two column assignments of [calculate_ecl]. The division of the
    rate is a pandas Series division: it follows IEEE 754 and never
    raises (0/0 is nan, x/0 an infinity). *)
Definition calculate_ecl (df : DataFrame) : DataFrame :=
  let df := (λ row, set_ecl_amount (Py.round 2 (calc_ecl row)) row) <$> df in
  (λ row, set_ecl_rate
            (Py.round 4 (ecl_amount row / outstanding_balance row * 100)%float) row)
    <$> df.

(** ** The random source and the effects of the module *)

(** numpy's legacy global generator, seen through the operations the
    module reaches: [np.random.seed], one double of [[0, 1)] (every
    [uniform] and every weighted [choice] is built from it), and
    [permutation n], a shuffle of [arange n] (what [choice] without
    replacement takes its sample from). *)
Class RandomState (G : Type) := {
  seed : Z → G;
  random_sample : G → float * G;
  permutation : nat → G → list nat * G
}.

(** The one fact about the generator that the proofs use. *)
Definition permutation_law {G} `{!RandomState G} : Prop :=
  ∀ (n : nat) (g : G), (permutation n g).1 ≡ₚ seq 0 n.

(** A computation that reads and advances the generator, or raises. *)
Definition M (G A : Type) : Type := G → Py.exn + (A * G).

#[global] Instance M_ret {G} : MRet (M G) := λ A a g, inr (a, g).

#[global] Instance M_bind {G} : MBind (M G) := λ A B f m g,
  match m g with
  | inl e => inl e
  | inr (a, g') => f a g'
  end.

Definition raise {G A} (e : Py.exn) : M G A := λ _, inl e.

(** A pure step that may raise. *)
Definition lift_exn {G A} (r : Py.exn + A) : M G A := λ g,
  match r with
  | inl e => inl e
  | inr a => inr (a, g)
  end.

(** [for x in xs: body], the loop body updating the frame. *)
Fixpoint for_in {G A S} (xs : list A) (body : A → S → M G S) (s : S) : M G S :=
  match xs with
  | [] => mret s
  | x :: xs => s' ← body x s; for_in xs body s'
  end.

(** [df[mask].index]: the labels of the rows satisfying [mask], ascending. *)
Definition index_where (mask : LoanRecord → bool) (df : DataFrame) : list nat :=
  (imap (λ i row, (i, row)) df) ≫= λ '(i, row), if mask row then [i] else [].

(** [df.index]. *)
Definition index (df : DataFrame) : list nat := seq 0 (length df).

(** [df.at[idx, col]] as a read: a label outside the index raises. *)
Definition at_get {G V} (col : LoanRecord → V) (idx : nat) (df : DataFrame) : M G V :=
  match df !! idx with
  | Some row => mret (col row)
  | None => raise (Py.KeyError "label not in index")
  end.

(** [df.at[idx, col] = v]. For a label of the index this overwrites one
    cell. For any other label pandas would append a row: the model stops
    with [KeyError] there instead, so that a run that returns has written
    inside the index only, and [evolve_conserves_population] shows that
    the branch is never taken. *)
Definition at_set {G} (set : LoanRecord → LoanRecord) (idx : nat) (df : DataFrame)
    : M G DataFrame :=
  if decide (idx < length df) then mret (alter set idx df)
  else raise (Py.KeyError "label not in index").

Section Numpy.
Context {G : Type} `{!RandomState G}.

(** [np.random.uniform(low, high)]: [low + (high - low) * random_sample()]. *)
Definition uniform (low high : float) : M G float := λ g,
  let '(u, g') := random_sample g in
  inr ((low + (high - low) * u)%float, g').

(** [np.random.uniform(low, high, size)]: [size] draws, in order. *)
Definition uniform_n (low high : float) (size : nat) : M G (list float) :=
  mapM (λ _, uniform low high) (replicate size ()).

(** [np.random.choice(a, size=size, replace=False)]: the first [size]
    entries of [permutation(len(a))] index into [a]. *)
Definition choice {A} (a : list A) (size : Z) : M G (list A) :=
  if decide (size < 0)%Z then raise (Py.ValueError "negative dimensions are not allowed")
  else if decide (length a < Z.to_nat size) then
    raise (Py.ValueError "Cannot take a larger sample than population when 'replace=False'")
  else λ g,
    let '(idx, g') := permutation (length a) g in
    match mapM (λ i, a !! i) (take (Z.to_nat size) idx) with
    | Some sample => inr (sample, g')
    | None => inl (Py.IndexError "index out of bounds")
    end.

(** [p.cumsum()]. *)
Fixpoint cumsum (acc : float) (p : list float) : list float :=
  match p with
  | [] => []
  | x :: p => let acc := (acc + x)%float in acc :: cumsum acc p
  end.

(** [cdf.searchsorted(u, side='right')]: how many entries are [<= u]. *)
Definition searchsorted_right (cdf : list float) (u : float) : nat :=
  length (filter (λ c, (c <=? u)%float = true) cdf).

(** [np.random.choice(a, p=p)], one sample with replacement: the inverse
    of the normalised cumulative distribution at one double. *)
Definition choice_p {A} (a : list A) (p : list float) : M G A := λ g,
  let cdf := cumsum 0%float p in
  let cdf := (λ c, (c / List.last cdf 0)%float) <$> cdf in
  let '(u, g') := random_sample g in
  match a !! searchsorted_right cdf u with
  | Some x => inr (x, g')
  | None => inl (Py.IndexError "index out of bounds")
  end.

(** ** Loss given default and the risk-parameter pass *)

(** The dict literal is evaluated before the lookup: its five values are
    drawn, top to bottom, whatever the product of the row. *)
Definition calculate_lgd (row : LoanRecord) : M G float :=
  mortgage ← uniform 0.15 0.30;
  auto_loan ← uniform 0.25 0.40;
  personal_loan ← uniform 0.50 0.70;
  credit_card ← uniform 0.60 0.80;
  sme_loan ← uniform 0.40 0.60;
  let lgd_by_product : gmap string float :=
    {[ "Mortgage" := mortgage;
       "Auto Loan" := auto_loan;
       "Personal Loan" := personal_loan;
       "Credit Card" := credit_card;
       "SME Loan" := sme_loan ]} in
  mret (default 0.50%float (lgd_by_product !! product_type row)).

Definition calculate_pd_lgd (df : DataFrame) : M G DataFrame :=
  let df := assign_apply set_pd_12m calculate_12m_pd df in
  let df := assign_apply set_pd_lifetime calculate_lifetime_pd df in
  lgds ← mapM calculate_lgd df;
  let df := zip_with set_lgd lgds df in
  let df := (λ row, set_pd_12m (Py.round 6 (pd_12m row)) row) <$> df in
  let df := (λ row, set_pd_lifetime (Py.round 6 (pd_lifetime row)) row) <$> df in
  let df := (λ row, set_lgd (Py.round 4 (lgd row)) row) <$> df in
  mret df.

(** The three calls that close both [__main__] (for Q3) and
    [evolve_to_q4] (for Q4): every produced snapshot is their result. *)
Definition recalculate (df : DataFrame) : M G DataFrame :=
  df ← calculate_pd_lgd df;
  let df := assign_ifrs9_stage df in
  let df := calculate_ecl df in
  mret df.

End Numpy.

(** ** The evolution of a snapshot: [evolve_to_q4]

    The function body is split at its own numbered comments. Each block
    returns, next to the frame it leaves, the local variables it binds,
    so that statements can speak about them; [evolve_to_q4] drops them. *)

(** The local variables of block 3 ([# 3. DPD changes]), and the frame
    as each of its four loops leaves it. *)
Record dpd_locals := {
  current_loans : list nat;
  newly_delinquent : list nat;
  newly_delinquent_dpd : list Z;   (* the value drawn for each, in order *)
  df_after_newly_delinquent : DataFrame;
  dpd_30 : list nat;
  worsening_30 : list nat;
  df_after_worsening_30 : DataFrame;
  dpd_60 : list nat;
  worsening_60 : list nat;
  df_after_worsening_60 : DataFrame;
  delinquent : list nat;
  curing : list nat
}.

Section Evolution.
Context {G : Type} `{!RandomState G}.

(** [int(n * fraction)] for a population count [n]. *)
Definition sample_size (n : nat) (fraction : float) : M G Z :=
  lift_exn (Py.int (Py.float_of_int (Z.of_nat n) * fraction)%float).

(** [# 1. Balance reduction]: one factor of [[0.96, 0.99)] per loan. *)
Definition balance_reduction (n_loans : nat) (df_q4 : DataFrame) : M G DataFrame :=
  factors ← uniform_n 0.96 0.99 n_loans;
  mret (zip_with
          (λ row f, set_outstanding_balance (outstanding_balance row * f)%float row)
          df_q4 factors).

Definition deteriorate (idx : nat) (df_q4 : DataFrame) : M G DataFrame :=
  change ← uniform (-25) (-5);
  score ← at_get credit_score_current idx df_q4;
  v ← lift_exn (Py.int (Py.max 300 (Py.float_of_int score + change)%float));
  at_set (set_credit_score_current v) idx df_q4.

Definition improve (idx : nat) (df_q4 : DataFrame) : M G DataFrame :=
  change ← uniform 5 20;
  score ← at_get credit_score_current idx df_q4;
  v ← lift_exn (Py.int (Py.min 850 (Py.float_of_int score + change)%float));
  at_set (set_credit_score_current v) idx df_q4.

(** [# 2. Credit score changes]. Both sample sizes are computed from
    [n_loans], the length of the whole frame. *)
Definition credit_score_changes (n_loans : nat) (df_q4 : DataFrame)
    : M G (list nat * list nat * DataFrame) :=
  size ← sample_size n_loans 0.25;
  deterioration_indices ← choice (index df_q4) size;
  let remaining := filter (λ i, i ∉ deterioration_indices) (index df_q4) in
  size ← sample_size n_loans 0.15;
  improvement_indices ← choice remaining size;
  df_q4 ← for_in deterioration_indices deteriorate df_q4;
  df_q4 ← for_in improvement_indices improve df_q4;
  mret (deterioration_indices, improvement_indices, df_q4).

(** One loop of block 3 that overwrites [days_past_due] with a weighted
    draw: [df.at[idx, 'days_past_due'] = np.random.choice(values, p=p)].
    The drawn values are returned with the frame. *)
Definition redraw_dpd (values : list Z) (p : list float) (selected : list nat)
    (df_q4 : DataFrame) : M G (list Z * DataFrame) :=
  for_in selected
    (λ idx '(drawn, df_q4),
       v ← choice_p values p;
       df_q4 ← at_set (set_days_past_due v) idx df_q4;
       mret (drawn ++ [v], df_q4))
    ([], df_q4).

Definition cure (idx : nat) (df_q4 : DataFrame) : M G DataFrame :=
  current_dpd ← at_get days_past_due idx df_q4;
  if (current_dpd =? 30)%Z then at_set (set_days_past_due 0) idx df_q4
  else if (current_dpd =? 60)%Z then at_set (set_days_past_due 30) idx df_q4
  else if (90 <=? current_dpd)%Z then at_set (set_days_past_due 60) idx df_q4
  else mret df_q4.

(** [# 3. DPD changes]: four selections, each on the frame as the loop
    before it left it. *)
Definition dpd_changes (df_q4 : DataFrame) : M G (dpd_locals * DataFrame) :=
  (* Loans that were current may become delinquent *)
  let current_loans := index_where (λ row, (days_past_due row =? 0)%Z) df_q4 in
  size ← sample_size (length current_loans) 0.08;
  newly_delinquent ← choice current_loans size;
  '(drawn, df_a) ← redraw_dpd [30; 60]%Z [0.7; 0.3]%float newly_delinquent df_q4;
  (* Some 30 DPD become 60 or 90 *)
  let dpd_30 := index_where (λ row, (days_past_due row =? 30)%Z) df_a in
  size ← sample_size (length dpd_30) 0.4;
  worsening_30 ← choice dpd_30 size;
  '(_, df_b) ← redraw_dpd [60; 90]%Z [0.6; 0.4]%float worsening_30 df_a;
  (* Some 60 DPD become 90 or 120 *)
  let dpd_60 := index_where (λ row, (days_past_due row =? 60)%Z) df_b in
  size ← sample_size (length dpd_60) 0.5;
  worsening_60 ← choice dpd_60 size;
  '(_, df_c) ← redraw_dpd [90; 120]%Z [0.7; 0.3]%float worsening_60 df_b;
  (* Some delinquent loans cure *)
  let delinquent := index_where (λ row, (0 <? days_past_due row)%Z) df_c in
  size ← sample_size (length delinquent) 0.15;
  curing ← choice delinquent size;
  df_d ← for_in curing cure df_c;
  mret ({| current_loans := current_loans;
           newly_delinquent := newly_delinquent;
           newly_delinquent_dpd := drawn;
           df_after_newly_delinquent := df_a;
           dpd_30 := dpd_30;
           worsening_30 := worsening_30;
           df_after_worsening_30 := df_b;
           dpd_60 := dpd_60;
           worsening_60 := worsening_60;
           df_after_worsening_60 := df_c;
           delinquent := delinquent;
           curing := curing |}, df_d).

(** The body of [evolve_to_q4] up to the recalculation, with the locals
    of blocks 2 and 3. The input frame is copied first and never written.
    [credit_score_current.round(0).astype(int)] leaves an int column as it
    is. *)
Definition evolve_blocks (df_q3 : DataFrame)
    : M G (list nat * list nat * dpd_locals * DataFrame) :=
  let df_q4 := set_reporting_date (Date 2024 12 31) <$> df_q3 in
  let n_loans := length df_q4 in
  df_q4 ← balance_reduction n_loans df_q4;
  '(deterioration_indices, improvement_indices, df_q4) ←
    credit_score_changes n_loans df_q4;
  '(locals, df_q4) ← dpd_changes df_q4;
  let df_q4 :=
    (λ row, set_outstanding_balance (Py.round 2 (outstanding_balance row)) row)
      <$> df_q4 in
  mret (deterioration_indices, improvement_indices, locals, df_q4).

Definition evolve_to_q4 (df_q3 : DataFrame) : M G DataFrame :=
  '(_, _, _, df_q4) ← evolve_blocks df_q3;
  recalculate df_q4.

(** A run of the evolution in a fresh interpreter: the module seeds the
    global generator when it is loaded. *)
Definition evolve_seeded (s : Z) (df_q3 : DataFrame) : Py.exn + DataFrame :=
  match evolve_to_q4 df_q3 (seed s) with
  | inl e => inl e
  | inr (df_q4, _) => inr df_q4
  end.

End Evolution.

(** ** A small generator to run the model

    A linear congruential stand-in for the Mersenne twister: it serves
    to evaluate the definitions above on concrete frames. Its
    [permutation] rotates [arange n] by the state. *)
Module Lcg.

Definition next (s : Z) : Z := ((1103515245 * s + 12345) mod 2147483648)%Z.

#[global] Instance random_state : RandomState Z := {|
  seed s := (s mod 2147483648)%Z;
  random_sample s :=
    let s' := next s in ((Py.float_of_int s' / 2147483648)%float, s');
  permutation n s :=
    let s' := next s in (rotate (Z.to_nat (s' mod Z.max 1 (Z.of_nat n))) (seq 0 n), s')
|}.

(** The same generator with a second component that counts the calls:
    another generator object that delivers the same values. *)
Definition counting : RandomState (Z * nat) := {|
  seed s := (seed (RandomState := random_state) s, O);
  random_sample '(s, n) :=
    let '(u, s') := random_sample (RandomState := random_state) s in (u, (s', S n));
  permutation k '(s, n) :=
    let '(idx, s') := permutation (RandomState := random_state) k s in (idx, (s', S n))
|}.

End Lcg.

(** ** The specification's vocabulary

    The definitions of this section follow the words of the
    specification; the theorems below compare them with the code. *)

(** The product enumeration of the data model, and the strings the
    frames store for it. *)
Inductive Product := Mortgage | PersonalLoan | AutoLoan | CreditCard | SMELoan.

Definition product_name (p : Product) : string :=
  match p with
  | Mortgage => "Mortgage"
  | PersonalLoan => "Personal Loan"
  | AutoLoan => "Auto Loan"
  | CreditCard => "Credit Card"
  | SMELoan => "SME Loan"
  end.

(** The product a string names; [None] is an unknown product. *)
Definition product_of (s : string) : option Product :=
  List.find (λ p, String.eqb (product_name p) s)
    [Mortgage; PersonalLoan; AutoLoan; CreditCard; SMELoan].

Definition base_pd (score : Z) : float :=
  if (750 <=? score)%Z then 0.005
  else if (700 <=? score)%Z then 0.01
  else if (650 <=? score)%Z then 0.025
  else if (600 <=? score)%Z then 0.05
  else 0.10.

Definition dpd_multiplier (dpd : Z) : float :=
  if (dpd =? 0)%Z then 1.0
  else if (dpd <=? 30)%Z then 2.0
  else if (dpd <=? 90)%Z then 4.0
  else 8.0.

Definition product_adjustment (p : option Product) : float :=
  match p with
  | Some Mortgage => 0.7
  | Some AutoLoan => 0.9
  | Some SMELoan => 1.3
  | Some PersonalLoan => 1.2
  | Some CreditCard => 1.5
  | None => 1.0
  end.

(** The 12-month PD of a score, a delinquency bucket and a product. *)
Definition pd_12m_rule (score dpd : Z) (p : option Product) : float :=
  Py.min (base_pd score * dpd_multiplier dpd * product_adjustment p)%float 1.0%float.

(** The same tables and formula in exact decimal arithmetic. *)
Definition base_pd_exact (score : Z) : Q :=
  if (750 <=? score)%Z then 5 # 1000
  else if (700 <=? score)%Z then 1 # 100
  else if (650 <=? score)%Z then 25 # 1000
  else if (600 <=? score)%Z then 5 # 100
  else 10 # 100.

Definition dpd_multiplier_exact (dpd : Z) : Q :=
  if (dpd =? 0)%Z then 1
  else if (dpd <=? 30)%Z then 2
  else if (dpd <=? 90)%Z then 4
  else 8.

Definition product_adjustment_exact (p : option Product) : Q :=
  match p with
  | Some Mortgage => 7 # 10
  | Some AutoLoan => 9 # 10
  | Some SMELoan => 13 # 10
  | Some PersonalLoan => 12 # 10
  | Some CreditCard => 15 # 10
  | None => 1
  end.

Definition pd_12m_exact (score dpd : Z) (p : option Product) : Q :=
  Qmin (base_pd_exact score * dpd_multiplier_exact dpd * product_adjustment_exact p) 1.

Definition pd_lifetime_exact (score dpd : Z) (p : option Product) : Q :=
  Qmin (pd_12m_exact score dpd p * 3) 1.

(** The binary64 number nearest to a rational whose reduced numerator
    and denominator are below 2^53: both convert exactly, and the IEEE
    division rounds their quotient correctly. *)
Definition nearest_float (q : Q) : float :=
  let q := Qred q in
  (Py.float_of_int (Qnum q) / Py.float_of_int (Zpos (Qden q)))%float.

(** The staging rule, first match wins. *)
Definition stage_rule (days_past_due score_drop : Z) (pd_12m : float) : Z :=
  if (90 <? days_past_due)%Z then 3%Z
  else if (30 <=? days_past_due)%Z then 2%Z
  else if (100 <? score_drop)%Z then 2%Z
  else if (0.03 <? pd_12m)%float then 2%Z
  else 1%Z.

(** The PD the ECL of a stage uses. *)
Definition stage_pd (row : LoanRecord) : float :=
  if (ifrs9_stage row =? 1)%Z then pd_12m row else pd_lifetime row.

Section Draws.
Context {G : Type} `{!RandomState G}.

(** The generator after [n] doubles have been drawn, and the [k]-th
    double (from 0) a state is about to deliver. *)
Fixpoint advance (n : nat) (g : G) : G :=
  match n with
  | O => g
  | S n => advance n (random_sample g).2
  end.

Definition draw (k : nat) (g : G) : float := (random_sample (advance k g)).1.

(** A uniform value of [[low, high)] made from one double. *)
Definition scale (low high u : float) : float := (low + (high - low) * u)%float.

(** The LGD of a product when the generator is in state [g]: the
    product's own range, scaled by the draw at the product's position
    among the five. *)
Definition lgd_draw (p : option Product) (g : G) : float :=
  match p with
  | Some Mortgage => scale 0.15 0.30 (draw 0 g)
  | Some AutoLoan => scale 0.25 0.40 (draw 1 g)
  | Some PersonalLoan => scale 0.50 0.70 (draw 2 g)
  | Some CreditCard => scale 0.60 0.80 (draw 3 g)
  | Some SMELoan => scale 0.40 0.60 (draw 4 g)
  | None => 0.50
  end.

(** A snapshot the module produces: the result of the risk-parameter,
    staging and ECL passes on some frame. Both the Q3 snapshot and the
    result of [evolve_to_q4] have this form. *)
Definition produced (snapshot : DataFrame) : Prop :=
  ∃ (df : DataFrame) (g g' : G), recalculate df g = inr (snapshot, g').

End Draws.

(** Two generators that deliver the same values, step for step, from
    states related by [R]. *)
Record same_draws {G1 G2} `{!RandomState G1, !RandomState G2}
    (R : G1 → G2 → Prop) : Prop := {
  same_seed : ∀ s, R (seed s) (seed s);
  same_random_sample : ∀ g1 g2, R g1 g2 →
    (random_sample g1).1 = (random_sample g2).1
    ∧ R (random_sample g1).2 (random_sample g2).2;
  same_permutation : ∀ n g1 g2, R g1 g2 →
    (permutation n g1).1 = (permutation n g2).1
    ∧ R (permutation n g1).2 (permutation n g2).2
}.

(** What a computation establishes: [Q] of its result and final
    generator when it returns, [E] of the exception when it raises. *)
Definition establishes {G A} (m : M G A) (g : G)
    (Q : A → G → Prop) (E : Py.exn → Prop) : Prop :=
  match m g with
  | inl e => E e
  | inr (a, g') => Q a g'
  end.

(** The exceptions that do not come from a label missing in the index. *)
Definition benign (e : Py.exn) : Prop :=
  match e with Py.KeyError _ => False | _ => True end.

(** Two computations, each on its own generator, that end alike from
    states related by [R]: the same exception, or the same result with
    related final states. *)
Definition agree {G1 G2 A} (R : G1 → G2 → Prop) (m1 : M G1 A) (m2 : M G2 A) : Prop :=
  ∀ g1 g2, R g1 g2 →
    match m1 g1, m2 g2 with
    | inl e1, inl e2 => e1 = e2
    | inr (a1, g1'), inr (a2, g2') => a1 = a2 ∧ R g1' g2'
    | _, _ => False
    end.

(** The same loans, in the same order. *)
Definition same_loans (df df' : DataFrame) : Prop := loan_id <$> df' = loan_id <$> df.

(** Block 3 as the specification describes it, on the frame [df] that
    enters it: every pool is the mask of the frame the loop before it
    left, every selection is taken from its pool, the frame the second
    step reads holds the values the first loop drew, and a loan the first
    loop set to 30 is in the pool of the second. *)
Definition cascading (df : DataFrame) (L : dpd_locals) : Prop :=
  current_loans L = index_where (λ row, (days_past_due row =? 0)%Z) df
  ∧ dpd_30 L
    = index_where (λ row, (days_past_due row =? 30)%Z) (df_after_newly_delinquent L)
  ∧ dpd_60 L
    = index_where (λ row, (days_past_due row =? 60)%Z) (df_after_worsening_30 L)
  ∧ delinquent L
    = index_where (λ row, (0 <? days_past_due row)%Z) (df_after_worsening_60 L)
  ∧ newly_delinquent L ⊆ current_loans L
  ∧ worsening_30 L ⊆ dpd_30 L
  ∧ worsening_60 L ⊆ dpd_60 L
  ∧ curing L ⊆ delinquent L
  ∧ (∀ k idx v, newly_delinquent L !! k = Some idx →
                newly_delinquent_dpd L !! k = Some v →
                days_past_due <$> df_after_newly_delinquent L !! idx = Some v)
  ∧ ∀ k idx, newly_delinquent L !! k = Some idx →
             newly_delinquent_dpd L !! k = Some 30%Z →
             idx ∈ dpd_30 L.

(** ** Row-wise reading of the column passes

    What the column-at-a-time passes leave in one row; the proofs show
    that the passes are these maps. *)

(** The row after [calculate_pd_lgd], [l] being the LGD drawn for it.
    The lifetime PD is computed from the 12-month PD before either is
    rounded. *)
Definition risk_parameters_row (l : float) (row : LoanRecord) : LoanRecord :=
  let pd := calculate_12m_pd row in
  set_lgd (Py.round 4 l)
    (set_pd_lifetime (Py.round 6 (Py.min (pd * 3.0)%float 1.0%float))
       (set_pd_12m (Py.round 6 pd) row)).

Definition stage_row (row : LoanRecord) : LoanRecord :=
  set_ifrs9_stage (determine_stage row) row.

Definition ecl_row (row : LoanRecord) : LoanRecord :=
  let row := set_ecl_amount (Py.round 2 (calc_ecl row)) row in
  set_ecl_rate (Py.round 4 (ecl_amount row / outstanding_balance row * 100)%float) row.

(** Floats that are numbers, and the two zeros. *)
Definition finite (x : float) : Prop :=
  match Prim2SF x with
  | S754_zero _ | S754_finite _ _ _ => True
  | _ => False
  end.

Definition is_zero (x : float) : Prop := ∃ s, Prim2SF x = S754_zero s.

(** ** Sample frames

    A base portfolio of twenty loans, as [generate_base_portfolio] lays
    a frame out (rounded amounts, integer scores, the six delinquency
    buckets), for running the passes with the small generator. *)

Definition loan (id product : string) (amount balance : float)
    (score_origination score_current dpd : Z) : LoanRecord :=
  {| loan_id := id; reporting_date := Date 2024 9 30; product_type := product;
     origination_date := Date 2022 3 15; original_amount := amount;
     outstanding_balance := balance;
     credit_score_origination := score_origination;
     credit_score_current := score_current;
     days_past_due := dpd; interest_rate := 6.25;
     industry_sector := if String.eqb product "SME Loan" then "Retail" else "N/A";
     geography := "North";
     pd_12m := 0; pd_lifetime := 0; lgd := 0;
     ifrs9_stage := 0; ecl_amount := 0; ecl_rate := 0 |}.

Definition sample_portfolio : DataFrame :=
  [ loan "LN0000001" "Mortgage" 250000 212500.5 760 755 0;
    loan "LN0000002" "Personal Loan" 12000 8400.25 690 640 0;
    loan "LN0000003" "Auto Loan" 30000 21000 710 705 30;
    loan "LN0000004" "Credit Card" 5000 4100.75 655 610 0;
    loan "LN0000005" "SME Loan" 90000 61200 700 590 60;
    loan "LN0000006" "Mortgage" 310000 280000 800 790 0;
    loan "LN0000007" "Mortgage" 180000 99000.4 720 600 0;
    loan "LN0000008" "Personal Loan" 8000 3000 610 580 30;
    loan "LN0000009" "Auto Loan" 22000 15400 680 700 0;
    loan "LN0000010" "Credit Card" 3500 3100 590 560 120;
    loan "LN0000011" "Mortgage" 410000 350000.1 770 775 0;
    loan "LN0000012" "Personal Loan" 15000 9000 705 702 0;
    loan "LN0000013" "Auto Loan" 27000 18900 640 650 30;
    loan "LN0000014" "SME Loan" 120000 100000 730 735 0;
    loan "LN0000015" "Mortgage" 200000 170000 690 655 0;
    loan "LN0000016" "Credit Card" 6000 2400 720 715 0;
    loan "LN0000017" "Personal Loan" 9500 7600 660 540 90;
    loan "LN0000018" "Mortgage" 275000 233750 745 750 0;
    loan "LN0000019" "Auto Loan" 19000 9500 700 698 0;
    loan "LN0000020" "Mortgage" 330000 297000 810 805 0 ].

(** The result of a computation started from a seed of the small
    generator ([inl] when it raises). *)
Definition run {A} (m : M Z A) (s : Z) : Py.exn + A :=
  match m (seed s) with
  | inl e => inl e
  | inr (a, _) => inr a
  end.

(** The Q3 snapshot of the sample, and the frame to return when a run
    raises. *)
Definition or_empty (r : Py.exn + DataFrame) : DataFrame :=
  match r with inr df => df | inl _ => [] end.

Definition sample_q3 : DataFrame := or_empty (run (recalculate sample_portfolio) 42).

(** A frame with a fully repaid loan and an overpaid one. *)
Definition repaid_portfolio : DataFrame :=
  [ loan "LN0000021" "Mortgage" 150000 0 700 700 0;
    loan "LN0000022" "Credit Card" 2000 (-125.5) 640 640 30 ].

(** ** The loan identifiers of [generate_base_portfolio] *)

(** [str(i)] for an int: the decimal digits, after a minus sign for a
    negative. *)
Definition str (i : Z) : string := pretty i.

Fixpoint zeros (n : nat) : string :=
  match n with
  | O => EmptyString
  | S n => String "0"%char (zeros n)
  end.

(** [s.zfill(width)]: zeros on the left up to [width] characters, after
    the sign when [s] starts with one. *)
Definition zfill (width : nat) (s : string) : string :=
  if decide (width ≤ String.length s) then s
  else
    let fill := zeros (width - String.length s) in
    match s with
    | String c rest =>
        if decide (c = "+"%char ∨ c = "-"%char) then String c (fill +:+ rest)
        else fill +:+ s
    | EmptyString => fill
    end.

(** [[f"LN{str(i).zfill(7)}" for i in range(1, n_loans + 1)]]. *)
Definition loan_ids (n_loans : nat) : list string :=
  (λ i, "LN" +:+ zfill 7 (str (Z.of_nat i))) <$> seq 1 n_loans.

(** A string that starts with neither a zero nor a sign. *)
Definition plain (s : string) : Prop :=
  ∃ c rest, s = String c rest ∧ c ≠ "0"%char ∧ c ≠ "+"%char ∧ c ≠ "-"%char.

(** ** Frames row by row *)

(** Two frames of the same length, related row by row; the relation may
    depend on the index label. *)
Definition rows_rel (P : nat → LoanRecord → LoanRecord → Prop)
    (df df' : DataFrame) : Prop :=
  length df' = length df
  ∧ ∀ i r r', df !! i = Some r → df' !! i = Some r' → P i r r'.

(** Any exception: for statements about the runs that return. *)
Definition any_exn (e : Py.exn) : Prop := True.

(** A column with its read and its write. *)
Record column (V : Type) := Column {
  read : LoanRecord → V;
  write : V → LoanRecord → LoanRecord
}.
Arguments read {V}.
Arguments write {V}.
Arguments Column {V}.

Definition score_column : column Z :=
  Column credit_score_current set_credit_score_current.

Definition dpd_column : column Z := Column days_past_due set_days_past_due.

Definition lawful_column {V} (c : column V) : Prop :=
  (∀ v r, read c (write c v r) = v) ∧ (∀ r, write c (read c r) r = r).

(** What a loop of [.at] writes into column [c] at the labels [xs] makes
    of row [i]: nothing but column [c] changes, a row outside [xs] is as
    it was, and the value of a row of [xs] is related by [T] to the value
    it replaces. *)
Definition step {V} (c : column V) (xs : list nat) (T : V → V → Prop)
    (i : nat) (r r' : LoanRecord) : Prop :=
  r' = write c (read c r') r
  ∧ (i ∉ xs → r' = r)
  ∧ (i ∈ xs → T (read c r) (read c r')).

Definition written {V} (c : column V) (xs : list nat) (T : V → V → Prop)
    (df df' : DataFrame) : Prop :=
  rows_rel (step c xs T) df df'.

(** The value the curing loop leaves where it finds [current_dpd]. *)
Definition cured (current_dpd : Z) : Z :=
  if (current_dpd =? 30)%Z then 0
  else if (current_dpd =? 60)%Z then 30
  else if (90 <=? current_dpd)%Z then 60
  else current_dpd.

(** The writes of blocks 2 and 3: the value found and the value left. *)
Definition floored (_ v : Z) : Prop := (300 ≤ v)%Z.

Definition capped (_ v : Z) : Prop := (v ≤ 850)%Z.

Definition becomes_delinquent (d v : Z) : Prop := d = 0%Z ∧ v ∈ [30; 60]%Z.

Definition worsens_30 (d v : Z) : Prop := d = 30%Z ∧ v ∈ [60; 90]%Z.

Definition worsens_60 (d v : Z) : Prop := d = 60%Z ∧ v ∈ [90; 120]%Z.

Definition cures (d v : Z) : Prop := (0 < d)%Z ∧ v = cured d.

(** Block 2 between the frame that enters it and the frame it leaves. *)
Definition score_drift (det imp : list nat) (df df' : DataFrame) : Prop :=
  ∃ df_1,
    written score_column det floored df df_1
    ∧ written score_column imp capped df_1 df'.

(** Block 3 between the frame that enters it and the frame it leaves,
    through the frames its first three loops leave. *)
Definition dpd_steps (L : dpd_locals) (df df' : DataFrame) : Prop :=
  written dpd_column (newly_delinquent L) becomes_delinquent
    df (df_after_newly_delinquent L)
  ∧ written dpd_column (worsening_30 L) worsens_30
      (df_after_newly_delinquent L) (df_after_worsening_30 L)
  ∧ written dpd_column (worsening_60 L) worsens_60
      (df_after_worsening_30 L) (df_after_worsening_60 L)
  ∧ written dpd_column (curing L) cures
      (df_after_worsening_60 L) df'.

(** The columns no statement of the evolution assigns. *)
Definition static_columns (r : LoanRecord) :=
  (loan_id r, product_type r, origination_date r, original_amount r,
   credit_score_origination r, interest_rate r, industry_sector r, geography r).

(** The frame one evolution call hands to the recalculation, in terms of
    the frame it was given: the reporting date and one balance factor per
    row (the [i]-th double the generator delivers, for row [i]), then
    block 2, then block 3, then the rounding of the balances. *)
Definition evolved {G} `{!RandomState G} (df_q3 : DataFrame) (g : G)
    (det imp : list nat) (L : dpd_locals) (df_q4 : DataFrame) : Prop :=
  ∃ df_1 df_2 df_3,
    rows_rel (λ i r r1,
        r1 = set_outstanding_balance
               (outstanding_balance r * scale 0.96 0.99 (draw i g))%float
               (set_reporting_date (Date 2024 12 31) r)) df_q3 df_1
    ∧ score_drift det imp df_1 df_2
    ∧ (NoDup det ∧ NoDup imp ∧ ∀ i, i ∈ imp → i ∉ det)
    ∧ dpd_steps L df_2 df_3
    ∧ df_q4
      = (λ row, set_outstanding_balance (Py.round 2 (outstanding_balance row)) row)
          <$> df_3.

(** ** What the evolution reads

    A row with its six risk columns blanked, and two computations that
    end alike on the same generator: the same exception, or results
    related by [R] and the same final state. *)
Definition without_risk_columns (r : LoanRecord) : LoanRecord :=
  set_ecl_rate 0 (set_ecl_amount 0 (set_ifrs9_stage 0
    (set_lgd 0 (set_pd_lifetime 0 (set_pd_12m 0 r))))).

Definition same_inputs (df df' : DataFrame) : Prop :=
  without_risk_columns <$> df = without_risk_columns <$> df'.

Definition related {G A B} (R : A → B → Prop) (m1 : M G A) (m2 : M G B) : Prop :=
  ∀ g, match m1 g, m2 g with
       | inl e1, inl e2 => e1 = e2
       | inr (a, g1), inr (b, g2) => R a b ∧ g1 = g2
       | _, _ => False
       end.

(** ** The stage report of [__main__]

    [df['ifrs9_stage'].value_counts()]: a Series from each value that
    occurs to the number of rows holding it (a value that does not occur
    has no entry). *)
Definition value_counts (column : list Z) : gmap Z nat :=
  foldr (λ v counts, <[v := S (default 0 (counts !! v))]> counts) ∅ column.

(** [counts.get(stage, 0)]. *)
Definition get_count (counts : gmap Z nat) (stage : Z) : Z :=
  Z.of_nat (default 0 (counts !! stage)).

(** The [change] printed for one stage of the migration table. *)
Definition stage_change (df_q3 df_q4 : DataFrame) (stage : Z) : Z :=
  let q3_stages := value_counts (ifrs9_stage <$> df_q3) in
  let q4_stages := value_counts (ifrs9_stage <$> df_q4) in
  let q3_count := get_count q3_stages stage in
  let q4_count := get_count q4_stages stage in
  (q4_count - q3_count)%Z.

(** A row of [migration_analysis]. *)
Record MigrationRow := {
  migration_loan_id : string;
  ifrs9_stage_q3 : Z;
  ifrs9_stage_q4 : Z
}.

(** [pd.merge(df_q3[['loan_id', 'ifrs9_stage']], df_q4[['loan_id',
    'ifrs9_stage']], on='loan_id', suffixes=('_q3', '_q4'))]: the inner
    join, one row for each pair of a left and a right row with the same
    [loan_id], in the order of the left keys. *)
Definition pd_merge (df_q3 df_q4 : DataFrame) : list MigrationRow :=
  l ← df_q3;
  (λ r, {| migration_loan_id := loan_id l;
           ifrs9_stage_q3 := ifrs9_stage l;
           ifrs9_stage_q4 := ifrs9_stage r |})
    <$> filter (λ r, loan_id r = loan_id l) df_q4.

(** [len(migration_analysis[(migration_analysis['ifrs9_stage_q3'] == a)
    & (migration_analysis['ifrs9_stage_q4'] == b)])]. *)
Definition migrations (a b : Z) (migration_analysis : list MigrationRow) : Z :=
  Z.of_nat (length (filter (λ m, ifrs9_stage_q3 m = a ∧ ifrs9_stage_q4 m = b)
                      migration_analysis)).

(** Two rows for the monotonicity samples: a current mortgage with a
    good score, and the same loan 45 days past due with a score 130
    points lower. *)
Definition sound_loan : LoanRecord :=
  loan "LN0000031" "Mortgage" 250000 212500.5 760 755 0.

Definition strained_loan : LoanRecord :=
  loan "LN0000031" "Mortgage" 250000 212500.5 760 625 45.

(** * Proofs *)

(** ** The primitives on known values *)

(** numpy rounds the scaled value to even: 0.125 goes to 0.12, and 2.675
    (whose product with 100 is exactly 267.5 in binary64) to 2.68. *)
Example round_values :
  Py.round 2 0.125 = 0.12%float ∧ Py.round 2 2.675 = 2.68%float
  ∧ Py.round 6 0.0034999999999999996 = 0.0035%float
  ∧ Py.round 2 (-0.001) = (-0)%float.
Proof. vm_compute. split_and!; reflexivity. Qed.

Example int_values :
  Py.int 3.7 = inr 3%Z ∧ Py.int (-3.7) = inr (-3)%Z ∧ Py.int 0.8 = inr 0%Z
  ∧ Py.int (Py.float_of_int 20 * 0.15)%float = inr 3%Z
  ∧ Py.int infinity = inl (Py.OverflowError "cannot convert float infinity to integer").
Proof. vm_compute. split_and!; reflexivity. Qed.

(** The weighted draw of step (a): 30 below 0.7, 60 from 0.7 on. *)
Example searchsorted_values :
  let cdf := cumsum 0 [0.7; 0.3]%float in
  cdf = [0.7; 1.0]%float
  ∧ searchsorted_right cdf 0.6999 = 0 ∧ searchsorted_right cdf 0.7 = 1
  ∧ searchsorted_right cdf 0.9999 = 1.
Proof. vm_compute. split_and!; reflexivity. Qed.

(** ** The monad *)

Lemma bind_inr {G A B} (m : M G A) (f : A → M G B) g b g' :
  (m ≫= f) g = inr (b, g') ↔ ∃ a g1, m g = inr (a, g1) ∧ f a g1 = inr (b, g').
Proof.
  unfold mbind, M_bind. destruct (m g) as [e|[a g1]]; split.
  - discriminate.
  - intros (?&?&?&?); discriminate.
  - eauto.
  - intros (?&?&[= <- <-]&?); done.
Qed.

(** ** Table lookups *)

Lemma product_of_cases (s : string) :
  product_of s =
    if decide (s = "Mortgage") then Some Mortgage
    else if decide (s = "Personal Loan") then Some PersonalLoan
    else if decide (s = "Auto Loan") then Some AutoLoan
    else if decide (s = "Credit Card") then Some CreditCard
    else if decide (s = "SME Loan") then Some SMELoan
    else None.
Proof.
  unfold product_of. cbn -[String.eqb].
  repeat match goal with
         | |- context [String.eqb ?k s] =>
             destruct (String.eqb_spec k s) as [<-|?]; [reflexivity|]
         end.
  repeat (case_decide; [congruence|]). reflexivity.
Qed.

Lemma product_adj_lookup (s : string) :
  default 1.0%float (product_adj !! s) = product_adjustment (product_of s).
Proof.
  rewrite product_of_cases. unfold product_adj.
  repeat case_decide; by simplify_map_eq.
Qed.

Lemma calculate_12m_pd_rule (row : LoanRecord) :
  calculate_12m_pd row
  = pd_12m_rule (credit_score_current row) (days_past_due row)
      (product_of (product_type row)).
Proof. unfold calculate_12m_pd, pd_12m_rule. by rewrite product_adj_lookup. Qed.

(** ** Staging *)

(** C2. [determine_stage] is the staging rule applied to the triple
    (days past due, score drop, 12-month PD) of the row, first match
    first: stage 3 whenever days past due exceed 90, whatever the score
    drop and the PD; otherwise stage 2 whenever days past due reach 30, or
    the score drop exceeds 100, or the PD exceeds 0.03; otherwise stage 1. *)
Theorem determine_stage_first_match (row : LoanRecord) :
  let drop := (credit_score_origination row - credit_score_current row)%Z in
  determine_stage row = stage_rule (days_past_due row) drop (pd_12m row)
  ∧ ((90 < days_past_due row)%Z → determine_stage row = 3%Z)
  ∧ ((days_past_due row ≤ 90)%Z →
     ((30 ≤ days_past_due row)%Z ∨ (100 < drop)%Z
      ∨ (0.03 <? pd_12m row)%float = true) →
     determine_stage row = 2%Z)
  ∧ ((days_past_due row < 30)%Z → (drop ≤ 100)%Z →
     (0.03 <? pd_12m row)%float = false →
     determine_stage row = 1%Z).
Proof.
  intros drop. unfold determine_stage, stage_rule. fold drop.
  destruct (Z.ltb_spec 90 (days_past_due row)),
    (Z.leb_spec 30 (days_past_due row)),
    (Z.ltb_spec 100 drop),
    (0.03 <? pd_12m row)%float; simpl;
    repeat split; intros; try reflexivity; try lia; naive_solver lia.
Qed.

(** Two rows with the same triple get the same stage. *)
Lemma determine_stage_pure (row row' : LoanRecord) :
  days_past_due row = days_past_due row' →
  (credit_score_origination row - credit_score_current row
   = credit_score_origination row' - credit_score_current row')%Z →
  pd_12m row = pd_12m row' →
  determine_stage row = determine_stage row'.
Proof.
  intros Hd Hs Hp. unfold determine_stage. by rewrite Hd, Hs, Hp.
Qed.

(** The rule on five rows: 95 days past due; 30 days past due; a score
    drop of 120; a PD of 0.0325; and a row below every threshold. *)
Lemma determine_stage_first_match_sample :
  determine_stage (loan "LN0000031" "Mortgage" 1000 900 760 760 95) = 3%Z
  ∧ determine_stage (loan "LN0000032" "Mortgage" 1000 900 760 760 30) = 2%Z
  ∧ determine_stage (loan "LN0000033" "Mortgage" 1000 900 760 640 0) = 2%Z
  ∧ determine_stage
      (set_pd_12m 0.0325 (loan "LN0000034" "SME Loan" 1000 900 660 655 0)) = 2%Z
  ∧ determine_stage
      (set_pd_12m 0.0035 (loan "LN0000035" "Mortgage" 1000 900 760 760 0)) = 1%Z.
Proof.
  split_and!.
  - apply (determine_stage_first_match
             (loan "LN0000031" "Mortgage" 1000 900 760 760 95)). simpl. lia.
  - apply (determine_stage_first_match
             (loan "LN0000032" "Mortgage" 1000 900 760 760 30)); simpl; [lia|left; lia].
  - apply (determine_stage_first_match
             (loan "LN0000033" "Mortgage" 1000 900 760 640 0));
      simpl; [lia|right; left; lia].
  - apply (determine_stage_first_match
             (set_pd_12m 0.0325 (loan "LN0000034" "SME Loan" 1000 900 660 655 0)));
      simpl; [lia|right; right; reflexivity].
  - apply (determine_stage_first_match
             (set_pd_12m 0.0035 (loan "LN0000035" "Mortgage" 1000 900 760 760 0)));
      simpl; [lia|lia|reflexivity].
Defined.

(** ** Floating-point facts about zero *)

Lemma eqb_zero (x : float) : (x =? 0)%float = true → is_zero x.
Proof.
  rewrite FloatAxioms.eqb_spec. unfold is_zero.
  destruct (Prim2SF x) as [s|s| |s m e]; [eauto|..].
  - by destruct s.
  - done.
  - by destruct s.
Qed.

Lemma is_zero_cases (x : float) : is_zero x → x = 0%float ∨ x = (-0)%float.
Proof.
  intros [s Hs]. rewrite <- (SF2Prim_Prim2SF x), Hs.
  destruct s; [right|left]; reflexivity.
Qed.

Lemma mul_zero_finite (x y : float) : is_zero x → finite y → is_zero (x * y).
Proof.
  intros [s Hs] Hy. unfold is_zero, finite in *.
  rewrite FloatAxioms.mul_spec, Hs.
  destruct (Prim2SF y); try done; simpl; eauto.
Qed.

Lemma round_2_zero (x : float) : is_zero x → is_zero (Py.round 2 x).
Proof.
  intros Hx. destruct (is_zero_cases x Hx) as [-> | ->]; vm_compute; eauto.
Qed.

Lemma zero_rate (a b : float) :
  is_zero a → is_zero b → Py.round 4 (a / b * 100)%float = nan.
Proof.
  intros Ha Hb.
  destruct (is_zero_cases a Ha) as [-> | ->], (is_zero_cases b Hb) as [-> | ->];
    reflexivity.
Qed.

(** ** The risk-parameter pass *)

Section RiskPass.
Context {G : Type} `{!RandomState G}.

Lemma advance_add n m (g : G) : advance (n + m) g = advance m (advance n g).
Proof. revert g; induction n as [|n IH]; intros g; [done|]. simpl. by rewrite IH. Qed.

(** One call of [calculate_lgd]: five doubles, one value. *)
Lemma calculate_lgd_run (row : LoanRecord) (g : G) :
  calculate_lgd row g
  = inr (lgd_draw (product_of (product_type row)) g, advance 5 g).
Proof.
  unfold calculate_lgd, mbind, M_bind, uniform, lgd_draw, draw. simpl.
  destruct (random_sample g) as [u0 g0]; simpl.
  destruct (random_sample g0) as [u1 g1]; simpl.
  destruct (random_sample g1) as [u2 g2]; simpl.
  destruct (random_sample g2) as [u3 g3]; simpl.
  destruct (random_sample g3) as [u4 g4]; simpl.
  unfold mret, M_ret. do 2 f_equal.
  rewrite product_of_cases.
  unfold scale. generalize (product_type row); intros p.
  repeat case_decide; by simplify_map_eq.
Qed.

(** The whole column: five doubles per row, in row order. *)
Lemma mapM_calculate_lgd (df : DataFrame) (g : G) :
  ∃ lgds, mapM calculate_lgd df g = inr (lgds, advance (5 * length df) g)
    ∧ length lgds = length df
    ∧ ∀ i row, df !! i = Some row →
        lgds !! i
        = Some (lgd_draw (product_of (product_type row)) (advance (5 * i) g)).
Proof.
  revert g; induction df as [|row df IH]; intros g.
  - exists []. by rewrite Nat.mul_0_r.
  - destruct (IH (advance 5 g)) as (lgds & Hrun & Hlen & Hlook).
    exists (lgd_draw (product_of (product_type row)) g :: lgds). split_and!.
    + cbn [mapM length]. unfold mbind, M_bind at 1.
      rewrite calculate_lgd_run.
      unfold mbind, M_bind at 1. fold (mapM (M := M G) calculate_lgd df).
      rewrite Hrun. unfold mret, M_ret. do 2 f_equal.
      replace (5 * S (length df)) with (5 + 5 * length df) by lia.
      by rewrite advance_add.
    + simpl. by rewrite Hlen.
    + intros [|i] r Hr.
      { by injection Hr as ->. }
      change ((lgd_draw (product_of (product_type row)) g :: lgds) !! S i)
        with (lgds !! i).
      change ((row :: df) !! S i) with (df !! i) in Hr.
      rewrite (Hlook _ _ Hr). do 2 f_equal.
      replace (5 * S i) with (5 + 5 * i) by lia. by rewrite advance_add.
Qed.

Lemma calculate_lgd_product (row row' : LoanRecord) :
  product_type row = product_type row' →
  calculate_lgd (G := G) row = calculate_lgd row'.
Proof. unfold calculate_lgd. by intros ->. Qed.

Lemma mapM_calculate_lgd_fmap (f : LoanRecord → LoanRecord) (df : DataFrame) :
  (∀ row, product_type (f row) = product_type row) →
  mapM (M := M G) calculate_lgd (f <$> df) = mapM calculate_lgd df.
Proof.
  intros Hf. induction df as [|row df IH]; [done|].
  cbn [fmap list_fmap mapM]. fold (f <$> df).
  by rewrite IH, (calculate_lgd_product (f row) row).
Qed.

End RiskPass.

(** ** The column passes, row by row *)

Lemma calculate_ecl_rows (df : DataFrame) : calculate_ecl df = ecl_row <$> df.
Proof. unfold calculate_ecl. by rewrite <- list_fmap_compose. Qed.

Lemma assign_ifrs9_stage_rows (df : DataFrame) :
  assign_ifrs9_stage df = stage_row <$> df.
Proof. reflexivity. Qed.

Lemma risk_columns_rows (lgds : list float) (df : DataFrame) :
  (λ row, set_lgd (Py.round 4 (lgd row)) row) <$>
    ((λ row, set_pd_lifetime (Py.round 6 (pd_lifetime row)) row) <$>
      ((λ row, set_pd_12m (Py.round 6 (pd_12m row)) row) <$>
        zip_with set_lgd lgds
          (assign_apply set_pd_lifetime calculate_lifetime_pd
            (assign_apply set_pd_12m calculate_12m_pd df))))
  = zip_with risk_parameters_row lgds df.
Proof.
  revert lgds; induction df as [|row df IH]; intros [|l lgds]; try reflexivity.
  cbn [assign_apply fmap list_fmap zip_with] in *. by rewrite IH.
Qed.

(** The stored PD pair of a row, whatever its score, delinquency bucket
    and product: by cases on the three tables, each case by evaluation. *)
Lemma pd_pair_cases (row : LoanRecord) :
  let pd := calculate_12m_pd row in
  let score := credit_score_current row in
  let dpd := days_past_due row in
  let p := product_of (product_type row) in
  Py.round 6 (Py.min (pd * 3.0)%float 1.0%float)
  = Py.round 6 (Py.min (Py.round 6 pd * 3.0)%float 1.0%float)
  ∧ (Py.round 6 pd <=? Py.round 6 (Py.min (pd * 3.0)%float 1.0%float))%float = true
  ∧ finite (Py.round 6 pd)
  ∧ finite (Py.round 6 (Py.min (pd * 3.0)%float 1.0%float))
  ∧ Py.round 6 pd = nearest_float (pd_12m_exact score dpd p)
  ∧ Py.round 6 (Py.min (pd * 3.0)%float 1.0%float)
    = nearest_float (pd_lifetime_exact score dpd p).
Proof.
  intros pd score dpd p. subst pd score dpd p. rewrite calculate_12m_pd_rule.
  unfold pd_lifetime_exact, pd_12m_exact, base_pd_exact, dpd_multiplier_exact,
    pd_12m_rule, base_pd, dpd_multiplier.
  destruct (product_of (product_type row)) as [[]|];
    destruct (750 <=? credit_score_current row)%Z;
    [|destruct (700 <=? credit_score_current row)%Z;
      [|destruct (650 <=? credit_score_current row)%Z;
        [|destruct (600 <=? credit_score_current row)%Z]]..];
    (destruct (days_past_due row =? 0)%Z;
     [|destruct (days_past_due row <=? 30)%Z;
       [|destruct (days_past_due row <=? 90)%Z]]);
    vm_compute; split_and!; reflexivity || exact I.
Qed.

(** ** Produced snapshots *)

Section Snapshots.
Context {G : Type} `{!RandomState G}.

Lemma calculate_pd_lgd_rows (df : DataFrame) (g : G) :
  ∃ lgds, length lgds = length df
    ∧ calculate_pd_lgd df g
      = inr (zip_with risk_parameters_row lgds df, advance (5 * length df) g).
Proof.
  destruct (mapM_calculate_lgd df g) as (lgds & Hrun & Hlen & _).
  exists lgds. split; [done|].
  unfold calculate_pd_lgd, mbind, M_bind.
  replace (mapM calculate_lgd (assign_apply _ _ (assign_apply _ _ df)) g)
    with (mapM calculate_lgd df g)
    by (unfold assign_apply; by rewrite !(mapM_calculate_lgd_fmap (G := G))).
  rewrite Hrun. unfold mret, M_ret. by rewrite risk_columns_rows.
Qed.

(** The three passes never raise, and act row by row. *)
Lemma recalculate_rows (df : DataFrame) (g : G) :
  ∃ lgds, length lgds = length df
    ∧ recalculate df g
      = inr (ecl_row <$> (stage_row <$> zip_with risk_parameters_row lgds df),
             advance (5 * length df) g).
Proof.
  destruct (calculate_pd_lgd_rows df g) as (lgds & Hlen & Hrun).
  exists lgds. split; [done|].
  unfold recalculate, mbind, M_bind. rewrite Hrun.
  by rewrite calculate_ecl_rows, assign_ifrs9_stage_rows.
Qed.

(** Every row of a produced snapshot is a row of some frame, taken
    through the three passes with some LGD draw. *)
Lemma produced_row (snapshot : DataFrame) (r : LoanRecord) :
  produced snapshot → r ∈ snapshot →
  ∃ l row, r = ecl_row (stage_row (risk_parameters_row l row)).
Proof.
  intros (df & g & g' & Hrun) Hr.
  destruct (recalculate_rows df g) as (lgds & _ & Hrows).
  rewrite Hrows in Hrun. injection Hrun as <- _.
  apply list_elem_of_fmap in Hr as (r1 & -> & Hr).
  apply list_elem_of_fmap in Hr as (r2 & -> & Hr).
  apply list_elem_of_lookup in Hr as (i & Hi).
  apply lookup_zip_with_Some in Hi as (l & row & -> & _ & _). eauto.
Qed.

(** C1. In every produced snapshot the stored [ecl_amount] of a record
    is the 2-decimal rounding of outstanding balance times PD times LGD,
    all three read from the record itself as stored: the 12-month PD when
    the record is in stage 1, the lifetime PD otherwise. *)
Theorem ecl_amount_formula (snapshot : DataFrame) (r : LoanRecord) :
  produced snapshot → r ∈ snapshot →
  ecl_amount r
  = Py.round 2 (outstanding_balance r * stage_pd r * lgd r)%float.
Proof.
  intros Hp Hr. destruct (produced_row _ _ Hp Hr) as (l & row & ->).
  unfold ecl_row, calc_ecl, stage_pd. cbn.
  by destruct (determine_stage (risk_parameters_row l row) =? 1)%Z.
Qed.

(** C3. [calculate_12m_pd] returns base PD times delinquency multiplier
    times product adjustment, capped at 1.0, with the tabulated values
    (the products are the code's strings: "Auto Loan" for AutoLoan, and
    so on; any other string is an unknown product, adjusted by 1.0). The
    [pd_12m] a produced snapshot stores is that value in its 6-decimal
    rounding, which is the binary64 number nearest to the exact decimal
    product of the three table entries, capped at 1. *)
Theorem pd_12m_table :
  (∀ row : LoanRecord,
     calculate_12m_pd row
     = Py.min (base_pd (credit_score_current row)
               * dpd_multiplier (days_past_due row)
               * product_adjustment (product_of (product_type row)))%float
              1.0%float)
  ∧ (∀ (snapshot : DataFrame) (r : LoanRecord),
     produced snapshot → r ∈ snapshot →
     pd_12m r
     = Py.round 6
         (pd_12m_rule (credit_score_current r) (days_past_due r)
            (product_of (product_type r)))
     ∧ pd_12m r
       = nearest_float
           (pd_12m_exact (credit_score_current r) (days_past_due r)
              (product_of (product_type r)))).
Proof.
  split.
  - intros row. apply calculate_12m_pd_rule.
  - intros snapshot r Hp Hr. destruct (produced_row _ _ Hp Hr) as (l & row & ->).
    destruct (pd_pair_cases row) as (_ & _ & _ & _ & Hexact & _).
    cbn in *. by rewrite <- calculate_12m_pd_rule.
Qed.

(** C9. In every produced snapshot the stored lifetime PD is
    [min(pd_12m * 3.0, 1.0)] up to the 6-decimal rounding of both
    columns: it is the rounding of that minimum taken on the stored
    12-month PD, and also (as the code computes it) on the 12-month PD
    before its rounding; and it is the binary64 number nearest to the
    exact value min(3 pd, 1), where the stored 12-month PD is the one
    nearest to the exact pd. The stored lifetime PD is never below the
    stored 12-month PD. *)
Theorem pd_lifetime_formula (snapshot : DataFrame) (r : LoanRecord) :
  produced snapshot → r ∈ snapshot →
  let score := credit_score_current r in
  let dpd := days_past_due r in
  let p := product_of (product_type r) in
  pd_lifetime r = Py.round 6 (Py.min (pd_12m r * 3.0)%float 1.0%float)
  ∧ (pd_12m r <=? pd_lifetime r)%float = true
  ∧ (∃ pd, pd_12m r = Py.round 6 pd
           ∧ pd_lifetime r = Py.round 6 (Py.min (pd * 3.0)%float 1.0%float))
  ∧ pd_12m r = nearest_float (pd_12m_exact score dpd p)
  ∧ pd_lifetime r = nearest_float (pd_lifetime_exact score dpd p).
Proof.
  intros Hp Hr. destruct (produced_row _ _ Hp Hr) as (l & row & ->).
  destruct (pd_pair_cases row) as (Heq & Hle & _ & _ & H12 & Hlt). cbn in *.
  split_and!; [done..| |done|done]. by exists (calculate_12m_pd row).
Qed.

(** C10. Whatever the product of the row, [calculate_lgd] leaves the
    generator exactly five doubles further (an unknown product too,
    which then gets the constant 0.50), and returns the one draw, among
    the five, that stands at the position of the row's own product,
    scaled to that product's range. A whole pass of [calculate_pd_lgd]
    over a frame therefore consumes five doubles per row. *)
Theorem calculate_lgd_five_draws :
  (∀ (row : LoanRecord) (g : G),
     calculate_lgd row g
     = inr (lgd_draw (product_of (product_type row)) g, advance 5 g))
  ∧ (∀ g : G, lgd_draw None g = 0.50%float)
  ∧ (∀ (df : DataFrame) (g : G), ∃ df',
       calculate_pd_lgd df g = inr (df', advance (5 * length df) g)).
Proof.
  split_and!.
  - apply calculate_lgd_run.
  - done.
  - intros df g. destruct (calculate_pd_lgd_rows df g) as (lgds & _ & ->). eauto.
Qed.

(** C4, as the code has it. The ECL pass has no failure path: on every
    frame with rows and every generator state the three passes return a
    snapshot with a row for every input row. A record whose balance is zero gets a zero
    [ecl_amount] (its LGD being a number) and the [ecl_rate] nan, the
    result of 0/0. *)
Theorem ecl_zero_balance :
  (∀ (df : DataFrame) (g : G), df ≠ [] → ∃ snapshot g',
     recalculate df g = inr (snapshot, g') ∧ length snapshot = length df)
  ∧ (∀ (snapshot : DataFrame) (r : LoanRecord),
     produced snapshot → r ∈ snapshot →
     (outstanding_balance r =? 0)%float = true → finite (lgd r) →
     (ecl_amount r = 0%float ∨ ecl_amount r = (-0)%float) ∧ ecl_rate r = nan).
Proof.
  split.
  - intros df g _. destruct (recalculate_rows df g) as (lgds & Hlen & ->).
    eexists _, _. split; [done|].
    rewrite !length_fmap, length_zip_with. lia.
  - intros snapshot r Hp Hr Hbal Hlgd.
    destruct (produced_row _ _ Hp Hr) as (l & row & ->).
    destruct (pd_pair_cases row) as (_ & _ & H12 & Hlt & _).
    apply eqb_zero in Hbal. cbn in *.
    assert (is_zero (Py.round 2 (calc_ecl (stage_row (risk_parameters_row l row)))))
      as Hecl.
    { apply round_2_zero. unfold calc_ecl. cbn.
      destruct (determine_stage _ =? 1)%Z;
        by repeat apply mul_zero_finite. }
    split; [by apply is_zero_cases|by apply zero_rate].
Qed.

End Snapshots.

(** ** The sample snapshots *)

Lemma sample_q3_produced : produced (G := Z) sample_q3.
Proof.
  exists sample_portfolio, (seed 42).
  destruct (recalculate sample_portfolio (seed 42)) as [e|[df g']] eqn:Hrun.
  - vm_compute in Hrun. discriminate.
  - exists g'. unfold sample_q3, run. by rewrite Hrun.
Qed.

Lemma ecl_amount_formula_sample :
  Forall (λ r, ecl_amount r
               = Py.round 2 (outstanding_balance r * stage_pd r * lgd r)%float)
    sample_q3.
Proof.
  apply Forall_forall. intros r Hr.
  exact (ecl_amount_formula sample_q3 r sample_q3_produced Hr).
Defined.

Lemma pd_12m_table_sample :
  Forall (λ r, pd_12m r
               = Py.round 6 (pd_12m_rule (credit_score_current r) (days_past_due r)
                               (product_of (product_type r))))
    sample_q3.
Proof.
  apply Forall_forall. intros r Hr.
  exact (proj1 (proj2 pd_12m_table sample_q3 r sample_q3_produced Hr)).
Defined.

Lemma pd_lifetime_formula_sample :
  Forall (λ r, pd_lifetime r = Py.round 6 (Py.min (pd_12m r * 3.0)%float 1.0%float)
               ∧ (pd_12m r <=? pd_lifetime r)%float = true)
    sample_q3.
Proof.
  apply Forall_forall. intros r Hr.
  destruct (pd_lifetime_formula sample_q3 r sample_q3_produced Hr) as (H1 & H2 & _).
  exact (conj H1 H2).
Defined.

(** A row of the specification's example: score 760, no days past due,
    a mortgage. The 12-month PD is the product 0.005 * 1.0 * 0.7 as
    binary64 computes it, stored as 0.0035; the stage is 1. *)
Example calculate_12m_pd_mortgage :
  let row := loan "LN0000001" "Mortgage" 250000 100000 760 760 0 in
  calculate_12m_pd row = (0.005 * 1.0 * 0.7)%float
  ∧ Py.round 6 (calculate_12m_pd row) = 0.0035%float
  ∧ determine_stage (set_pd_12m 0.0035 row) = 1%Z.
Proof. vm_compute. split_and!; reflexivity. Qed.

(** The code's product strings carry a space: "AutoLoan" is not one of
    them and gets the adjustment of an unknown product. *)
Example product_of_names :
  product_of "Auto Loan" = Some AutoLoan ∧ product_of "AutoLoan" = None.
Proof. split; reflexivity. Qed.

(** C4, the claim refuted. A fully repaid loan (balance 0) and an
    overpaid one (balance -125.5) go through the three passes without
    any exception: the snapshot is returned, with [ecl_amount] 0 and
    [ecl_rate] nan for the first, and a negative [ecl_amount] for the
    second. *)
Lemma zero_balance_is_not_an_error :
  ∃ r1 r2, run (recalculate repaid_portfolio) 42 = inr [r1; r2]
    ∧ outstanding_balance r1 = 0%float
    ∧ ecl_amount r1 = 0%float ∧ ecl_rate r1 = nan
    ∧ outstanding_balance r2 = (-125.5)%float
    ∧ ecl_amount r2 = (-40.8)%float ∧ ecl_rate r2 = 32.51%float.
Proof.
  eexists _, _. split; [vm_compute; reflexivity|].
  vm_compute. split_and!; reflexivity.
Qed.

Lemma repaid_snapshot_produced :
  produced (G := Z) (or_empty (run (recalculate repaid_portfolio) 42)).
Proof.
  exists repaid_portfolio, (seed 42).
  destruct (recalculate repaid_portfolio (seed 42)) as [e|[df g']] eqn:Hrun.
  - vm_compute in Hrun. discriminate.
  - exists g'. unfold run. by rewrite Hrun.
Qed.

Lemma ecl_zero_balance_sample :
  (∃ snapshot g',
     recalculate repaid_portfolio (seed 42) = inr (snapshot, g')
     ∧ length snapshot = 2)
  ∧ match or_empty (run (recalculate repaid_portfolio) 42) with
    | r :: _ =>
        (outstanding_balance r =? 0)%float = true
        ∧ (ecl_amount r = 0%float ∨ ecl_amount r = (-0)%float)
        ∧ ecl_rate r = nan
    | [] => False
    end.
Proof.
  split.
  - apply (proj1 (ecl_zero_balance (G := Z)) repaid_portfolio (seed 42)). discriminate.
  - pose proof repaid_snapshot_produced as Hp.
    destruct (or_empty (run (recalculate repaid_portfolio) 42)) as [|r rest] eqn:Hsnap.
    + vm_compute in Hsnap. discriminate.
    + assert ((outstanding_balance r =? 0)%float = true ∧ finite (lgd r)) as [Hb Hf].
      { vm_compute in Hsnap. injection Hsnap as <- _. split; [reflexivity|exact I]. }
      split; [done|].
      exact (proj2 (ecl_zero_balance (G := Z)) (r :: rest) r Hp
               (list_elem_of_here r rest) Hb Hf).
Defined.

(** ** Reasoning about computations *)

Lemma establishes_inr {G A} (m : M G A) g Q E a g' :
  establishes m g Q E → m g = inr (a, g') → Q a g'.
Proof. unfold establishes. intros H Heq. by rewrite Heq in H. Qed.

Lemma establishes_inl {G A} (m : M G A) g Q E e :
  establishes m g Q E → m g = inl e → E e.
Proof. unfold establishes. intros H Heq. by rewrite Heq in H. Qed.

Lemma establishes_ret {G A} (a : A) (g : G) (Q : A → G → Prop) E :
  Q a g → establishes (mret a) g Q E.
Proof. done. Qed.

Lemma establishes_bind {G A B} (m : M G A) (f : A → M G B) g Q E :
  establishes m g (λ a g', establishes (f a) g' Q E) E →
  establishes (m ≫= f) g Q E.
Proof.
  unfold establishes, mbind, M_bind. by destruct (m g) as [e|[a g']].
Qed.

Lemma establishes_mono {G A} (m : M G A) g (Q Q' : A → G → Prop) (E E' : Py.exn → Prop) :
  establishes m g Q E → (∀ a g', Q a g' → Q' a g') → (∀ e, E e → E' e) →
  establishes m g Q' E'.
Proof. unfold establishes. destruct (m g) as [e|[a g']]; eauto. Qed.

Lemma establishes_lift_exn {G A} (r : Py.exn + A) (g : G) (Q : A → G → Prop) E :
  match r with inl e => E e | inr a => Q a g end →
  establishes (lift_exn r) g Q E.
Proof. unfold establishes, lift_exn. by destruct r. Qed.

Lemma establishes_for_in {G A S} (I : S → Prop) (E : Py.exn → Prop)
    (xs : list A) (body : A → S → M G S) :
  (∀ x s g, x ∈ xs → I s → establishes (body x s) g (λ s' _, I s') E) →
  ∀ s g, I s → establishes (for_in xs body s) g (λ s' _, I s') E.
Proof.
  induction xs as [|x xs IH]; intros Hbody s g Hs; [done|].
  cbn [for_in]. apply establishes_bind.
  eapply establishes_mono; [apply Hbody; [left|done]| |done].
  intros s' g' Hs'. apply IH; [|done]. intros; apply Hbody; [by right|done].
Qed.

Lemma int_benign (x : float) : match Py.int x with inl e => benign e | inr _ => True end.
Proof. unfold Py.int. by destruct (Prim2SF x). Qed.

Section Specs.
Context {G : Type} `{!RandomState G}.

Lemma establishes_uniform low high (g : G) (Q : float → G → Prop) E :
  (∀ v g', Q v g') → establishes (uniform low high) g Q E.
Proof. intros HQ. unfold establishes, uniform. by destruct (random_sample g). Qed.

Lemma uniform_n_length low high n (g : G) E :
  establishes (uniform_n low high n) g (λ vs _, length vs = n) E.
Proof.
  unfold uniform_n. revert g. induction n as [|n IH]; intros g; [done|].
  cbn [replicate mapM]. apply establishes_bind, establishes_uniform. intros v g'.
  apply establishes_bind. eapply establishes_mono; [apply IH| |done].
  intros vs g'' <-. done.
Qed.

Lemma sample_size_spec n fraction (g : G) :
  establishes (sample_size n fraction) g
    (λ size g', g' = g ∧ Py.int (Py.float_of_int (Z.of_nat n) * fraction)%float = inr size)
    benign.
Proof.
  unfold sample_size. apply establishes_lift_exn.
  pose proof (int_benign (Py.float_of_int (Z.of_nat n) * fraction)%float) as H.
  by destruct (Py.int _).
Qed.

Lemma at_get_spec {V} (col : LoanRecord → V) idx df (g : G) E :
  idx < length df →
  establishes (at_get col idx df) g (λ v g', ∃ row, df !! idx = Some row ∧ v = col row) E.
Proof.
  intros Hidx. unfold at_get. apply lookup_lt_is_Some in Hidx as [row Hrow].
  rewrite Hrow. apply establishes_ret. eauto.
Qed.

Lemma at_set_spec set idx df (g : G) E :
  idx < length df →
  establishes (at_set set idx df) g (λ df' g', df' = alter set idx df) E.
Proof.
  intros Hidx. unfold at_set. rewrite decide_True by done. by apply establishes_ret.
Qed.


(** Indexing a duplicate-free list at distinct positions gives distinct
    elements. *)
Lemma lookups_NoDup {A} (a : list A) (idx : list nat) (sample : list A) :
  NoDup a → NoDup idx → Forall2 (λ i x, a !! i = Some x) idx sample →
  NoDup sample ∧ sample ⊆ a.
Proof.
  intros Ha Hidx Hall. induction Hall as [|i x idx sample Hi Hall IH].
  - split; [constructor|set_solver].
  - apply NoDup_cons in Hidx as [Hnotin Hidx]. destruct (IH Hidx) as [Hnd Hsub].
    split.
    + apply NoDup_cons. split; [|done]. intros Hx.
      apply list_elem_of_lookup in Hx as [k Hk].
      destruct (Forall2_lookup_r _ _ _ _ _ Hall Hk) as (j & Hj & Hjx).
      apply list_elem_of_lookup_2 in Hj.
      by rewrite (NoDup_lookup a i j x Ha Hi Hjx) in Hnotin.
    + intros y [->|Hy]%elem_of_cons; [|by apply Hsub].
      by eapply list_elem_of_lookup_2.
Qed.

Lemma choice_spec {A} (a : list A) (size : Z) (g : G) :
  permutation_law → NoDup a →
  establishes (choice a size) g
    (λ sample _, Z.of_nat (length sample) = size ∧ NoDup sample ∧ sample ⊆ a)
    benign.
Proof.
  intros Hlaw Ha. unfold establishes, choice.
  case_decide as Hneg; [done|].
  case_decide as Hbig; [done|].
  pose proof (Hlaw (length a) g) as Hperm.
  destruct (permutation (length a) g) as [idx g']. simpl in Hperm.
  destruct (mapM _ _) as [sample|] eqn:Hsample; [|done].
  apply mapM_Some in Hsample.
  assert (NoDup (take (Z.to_nat size) idx)) as Hnd.
  { eapply sublist_NoDup; [|apply sublist_take]. rewrite Hperm. apply NoDup_seq. }
  destruct (lookups_NoDup a _ _ Ha Hnd Hsample) as [? ?]. split_and!; [|done..].
  rewrite <- (Forall2_length _ _ _ Hsample), length_take, Hperm, length_seq. lia.
Qed.

(** ** Frame masks *)

Lemma index_where_spec (mask : LoanRecord → bool) (df : DataFrame) (i : nat) :
  i ∈ index_where mask df ↔ ∃ row, df !! i = Some row ∧ mask row = true.
Proof.
  unfold index_where. rewrite list_elem_of_bind. split.
  - intros ([j row] & Hi & Hj). apply list_elem_of_lookup in Hj as [k Hk].
    rewrite list_lookup_imap in Hk.
    destruct (df !! k) as [row'|] eqn:Hrow; simplify_eq/=.
    destruct (mask row) eqn:Hm; [|by apply not_elem_of_nil in Hi].
    apply list_elem_of_singleton in Hi as ->. eauto.
  - intros (row & Hrow & Hm). exists (i, row). rewrite Hm. split; [by left|].
    apply list_elem_of_lookup. exists i. by rewrite list_lookup_imap, Hrow.
Qed.

Lemma index_where_lt mask df i : i ∈ index_where mask df → i < length df.
Proof. intros (row & Hrow & _)%index_where_spec. by eapply lookup_lt_Some. Qed.

Lemma index_where_NoDup mask (df : DataFrame) : NoDup (index_where mask df).
Proof.
  unfold index_where.
  assert (∀ k, NoDup (imap (λ i row, (k + i, row)) df ≫= λ '(i, row), if mask row then [i] else [])
             ∧ ∀ i, i ∈ (imap (λ i row, (k + i, row)) df ≫= λ '(i, row), if mask row then [i] else []) → k ≤ i) as H.
  { induction df as [|row df IH]; intros k; [split; [constructor|set_solver]|].
    cbn [imap mbind list_bind].
    assert (imap ((λ i row, (k + i, row)) ∘ S) df = imap (λ i row, (S k + i, row)) df) as ->.
    { apply imap_ext. intros; simpl. f_equal. lia. }
    destruct (IH (S k)) as [Hnd Hge]. split.
    - destruct (mask row); [|done]. simpl. apply NoDup_cons. split; [|done].
      intros Hk%Hge. lia.
    - intros i [Hi|Hi]%elem_of_app.
      + destruct (mask row); [|by apply not_elem_of_nil in Hi].
        apply list_elem_of_singleton in Hi. lia.
      + apply Hge in Hi. lia. }
  apply (H 0).
Qed.

Lemma index_NoDup (df : DataFrame) : NoDup (index df).
Proof. apply NoDup_seq. Qed.

Lemma index_lt (df : DataFrame) i : i ∈ index df ↔ i < length df.
Proof. unfold index. rewrite elem_of_seq. lia. Qed.

Lemma choice_p_spec {A} (a : list A) p (g : G) :
  establishes (choice_p a p) g (λ x _, x ∈ a) benign.
Proof.
  unfold establishes, choice_p. destruct (random_sample g) as [u g'].
  destruct (a !! _) eqn:Hx; [|done]. by eapply list_elem_of_lookup_2.
Qed.


(** ** Writes keep the loans *)

Lemma same_loans_refl df : same_loans df df.
Proof. done. Qed.

Lemma same_loans_trans df1 df2 df3 :
  same_loans df1 df2 → same_loans df2 df3 → same_loans df1 df3.
Proof. unfold same_loans. congruence. Qed.

Lemma same_loans_length df df' : same_loans df df' → length df' = length df.
Proof. unfold same_loans. intros H. by rewrite <- (length_fmap loan_id df'), H, length_fmap. Qed.

Lemma same_loans_fmap (f : LoanRecord → LoanRecord) df :
  (∀ row, loan_id (f row) = loan_id row) → same_loans df (f <$> df).
Proof.
  intros Hf. unfold same_loans. rewrite <- list_fmap_compose.
  apply list_fmap_ext. intros; apply Hf.
Qed.

Lemma same_loans_alter (f : LoanRecord → LoanRecord) idx df :
  (∀ row, loan_id (f row) = loan_id row) → same_loans df (alter f idx df).
Proof.
  intros Hf. unfold same_loans. revert idx.
  induction df as [|row df IH]; intros [|idx]; simpl; [done..| |].
  - by rewrite Hf.
  - f_equal. apply IH.
Qed.

Lemma same_loans_zip_with {A} (f : LoanRecord → A → LoanRecord) df xs :
  (∀ row x, loan_id (f row x) = loan_id row) → length xs = length df →
  same_loans df (zip_with f df xs).
Proof.
  intros Hf. unfold same_loans. revert xs.
  induction df as [|row df IH]; intros [|x xs] Hlen; simplify_eq/=; [done|].
  by rewrite Hf, IH.
Qed.

(** ** The blocks of the evolution *)

Lemma balance_reduction_spec df (g : G) :
  establishes (balance_reduction (length df) df) g (λ df' _, same_loans df df') benign.
Proof.
  unfold balance_reduction. apply establishes_bind.
  eapply establishes_mono; [apply uniform_n_length| |done].
  intros factors g' Hlen. apply establishes_ret.
  by apply same_loans_zip_with.
Qed.

Lemma deteriorate_spec idx df (g : G) :
  idx < length df →
  establishes (deteriorate idx df) g (λ df' _, same_loans df df') benign.
Proof.
  intros Hidx. unfold deteriorate.
  apply establishes_bind, establishes_uniform. intros change g1.
  apply establishes_bind. eapply establishes_mono; [by apply at_get_spec| |done].
  intros score g2 _. apply establishes_bind, establishes_lift_exn.
  pose proof (int_benign (Py.max 300 (Py.float_of_int score + change)%float)) as Hint.
  destruct (Py.int _) as [e|v]; [done|].
  eapply establishes_mono; [by apply at_set_spec| |done].
  intros df' _ ->. by apply same_loans_alter.
Qed.

Lemma improve_spec idx df (g : G) :
  idx < length df →
  establishes (improve idx df) g (λ df' _, same_loans df df') benign.
Proof.
  intros Hidx. unfold improve.
  apply establishes_bind, establishes_uniform. intros change g1.
  apply establishes_bind. eapply establishes_mono; [by apply at_get_spec| |done].
  intros score g2 _. apply establishes_bind, establishes_lift_exn.
  pose proof (int_benign (Py.min 850 (Py.float_of_int score + change)%float)) as Hint.
  destruct (Py.int _) as [e|v]; [done|].
  eapply establishes_mono; [by apply at_set_spec| |done].
  intros df' _ ->. by apply same_loans_alter.
Qed.

Lemma cure_spec idx df (g : G) :
  idx < length df →
  establishes (cure idx df) g (λ df' _, same_loans df df') benign.
Proof.
  intros Hidx. unfold cure.
  apply establishes_bind. eapply establishes_mono; [by apply at_get_spec| |done].
  intros current_dpd g1 _.
  repeat case_match; try by apply establishes_ret.
  all: eapply establishes_mono; [by apply at_set_spec| |done].
  all: intros df' _ ->; by apply same_loans_alter.
Qed.

(** A loop of same-loan writes at labels of the index. *)
Lemma for_in_same_loans (body : nat → DataFrame → M G DataFrame) xs df (g : G) :
  (∀ idx df g, idx < length df →
     establishes (body idx df) g (λ df' _, same_loans df df') benign) →
  Forall (λ idx, idx < length df) xs →
  establishes (for_in xs body df) g (λ df' _, same_loans df df') benign.
Proof.
  intros Hbody Hxs.
  apply (establishes_for_in (λ df', same_loans df df') benign); [|done].
  intros idx df1 g1 Hidx H1.
  eapply establishes_mono; [apply Hbody| |done].
  - rewrite (same_loans_length _ _ H1). by eapply Forall_forall in Hxs.
  - intros df2 g2 H2. by eapply same_loans_trans.
Qed.


Lemma credit_score_changes_spec n df (g : G) :
  permutation_law →
  establishes (credit_score_changes n df) g
    (λ '(det, imp, df') _,
       same_loans df df' ∧ NoDup det ∧ NoDup imp
       ∧ det ⊆ index df ∧ imp ⊆ filter (λ i, i ∉ det) (index df)
       ∧ Py.int (Py.float_of_int (Z.of_nat n) * 0.25)%float = inr (Z.of_nat (length det))
       ∧ Py.int (Py.float_of_int (Z.of_nat n) * 0.15)%float = inr (Z.of_nat (length imp)))
    benign.
Proof.
  intros Hlaw. unfold credit_score_changes.
  apply establishes_bind.
  eapply establishes_mono; [apply sample_size_spec| |done]. intros size1 g1 [-> Hsize1].
  apply establishes_bind.
  eapply establishes_mono; [apply (choice_spec _ _ _ Hlaw), index_NoDup| |done].
  intros det g2 (Hlen1 & Hnd1 & Hsub1).
  apply establishes_bind.
  eapply establishes_mono; [apply sample_size_spec| |done]. intros size2 g3 [-> Hsize2].
  apply establishes_bind.
  eapply establishes_mono;
    [apply (choice_spec _ _ _ Hlaw), NoDup_filter, index_NoDup| |done].
  intros imp g4 (Hlen2 & Hnd2 & Hsub2).
  apply establishes_bind.
  eapply establishes_mono; [apply for_in_same_loans; [apply deteriorate_spec|]| |done].
  { apply Forall_forall. intros i Hi. by apply index_lt, Hsub1. }
  intros df1 g5 H1. apply establishes_bind.
  eapply establishes_mono; [apply for_in_same_loans; [apply improve_spec|]| |done].
  { apply Forall_forall. intros i Hi. rewrite (same_loans_length _ _ H1).
    by apply Hsub2, list_elem_of_filter in Hi as [_ ?%index_lt]. }
  intros df2 g6 H2. apply establishes_ret.
  split_and!; try done; try congruence; by eapply same_loans_trans.
Qed.

Lemma redraw_dpd_loop values p selected acc df (g : G) :
  NoDup selected → Forall (λ idx, idx < length df) selected →
  establishes
    (for_in selected
       (λ idx '(drawn, df_q4),
          v ← choice_p values p;
          df_q4 ← at_set (set_days_past_due v) idx df_q4;
          mret (drawn ++ [v], df_q4))
       (acc, df)) g
    (λ '(drawn, df') _,
       ∃ vs, drawn = acc ++ vs ∧ length vs = length selected
         ∧ same_loans df df'
         ∧ (∀ i, i ∉ selected → df' !! i = df !! i)
         ∧ ∀ k idx v, selected !! k = Some idx → vs !! k = Some v →
             days_past_due <$> df' !! idx = Some v)
    benign.
Proof.
  revert acc df g. induction selected as [|idx selected IH]; intros acc df g Hnd Hlt.
  - apply establishes_ret. exists []. rewrite app_nil_r. split_and!; try done.
  - apply NoDup_cons in Hnd as [Hnotin Hnd]. apply Forall_cons in Hlt as [Hidx Hlt].
    cbn [for_in]. apply establishes_bind, establishes_bind.
    eapply establishes_mono; [apply choice_p_spec| |done]. intros v g1 _.
    apply establishes_bind.
    eapply establishes_mono; [by apply at_set_spec| |done]. intros df1 g2 ->.
    apply establishes_ret.
    assert (same_loans df (alter (set_days_past_due v) idx df)) as Hsame
      by by apply same_loans_alter.
    eapply establishes_mono; [apply IH; [done|]| |done].
    { by rewrite (same_loans_length _ _ Hsame). }
    intros [drawn df'] g3 (vs & -> & Hlen & Hsame' & Hother & Hsel).
    exists (v :: vs). split_and!.
    + by rewrite <- app_assoc.
    + simpl. by rewrite Hlen.
    + by eapply same_loans_trans.
    + intros i Hi. apply not_elem_of_cons in Hi as [Hne Hi].
      by rewrite (Hother i Hi), list_lookup_alter_ne.
    + intros [|k] idx' v' Hk Hv; simplify_eq/=.
      * rewrite (Hother _ Hnotin), list_lookup_alter.
        apply lookup_lt_is_Some in Hidx as [row ->]. by rewrite decide_True.
      * by eapply Hsel.
Qed.

Lemma redraw_dpd_spec values p selected df (g : G) :
  NoDup selected → Forall (λ idx, idx < length df) selected →
  establishes (redraw_dpd values p selected df) g
    (λ '(drawn, df') _,
       length drawn = length selected ∧ same_loans df df'
       ∧ ∀ k idx v, selected !! k = Some idx → drawn !! k = Some v →
           days_past_due <$> df' !! idx = Some v)
    benign.
Proof.
  intros Hnd Hlt. unfold redraw_dpd.
  eapply establishes_mono; [by apply redraw_dpd_loop| |done].
  intros [drawn df'] g' (vs & -> & ? & ? & _ & ?). done.
Qed.


Lemma subseteq_index_where_lt mask (df df' : DataFrame) (xs : list nat) :
  xs ⊆ index_where mask df → length df' = length df →
  Forall (λ idx, idx < length df') xs.
Proof.
  intros Hsub Hlen. apply Forall_forall. intros i Hi%Hsub%index_where_lt. lia.
Qed.

Lemma dpd_changes_spec df (g : G) :
  permutation_law →
  establishes (dpd_changes df) g
    (λ '(L, df') _, same_loans df df' ∧ cascading df L) benign.
Proof.
  intros Hlaw. unfold dpd_changes.
  (* newly delinquent *)
  apply establishes_bind.
  eapply establishes_mono; [apply sample_size_spec| |done]. intros size1 g1 _.
  apply establishes_bind.
  eapply establishes_mono; [apply (choice_spec _ _ _ Hlaw), index_where_NoDup| |done].
  intros newly g2 (_ & Hnd1 & Hsub1).
  apply establishes_bind.
  eapply establishes_mono; [apply (redraw_dpd_spec _ _ newly df); [done|]| |done].
  { by eapply subseteq_index_where_lt. }
  intros [drawn df_a] g3 (Hlen & Hsame_a & Hdrawn).
  (* worsening 30 *)
  apply establishes_bind.
  eapply establishes_mono; [apply sample_size_spec| |done]. intros size2 g4 _.
  apply establishes_bind.
  eapply establishes_mono; [apply (choice_spec _ _ _ Hlaw), index_where_NoDup| |done].
  intros w30 g5 (_ & Hnd2 & Hsub2).
  apply establishes_bind.
  eapply establishes_mono; [apply (redraw_dpd_spec _ _ w30 df_a); [done|]| |done].
  { by eapply subseteq_index_where_lt. }
  intros [drawn_b df_b] g6 (_ & Hsame_b & _).
  (* worsening 60 *)
  apply establishes_bind.
  eapply establishes_mono; [apply sample_size_spec| |done]. intros size3 g7 _.
  apply establishes_bind.
  eapply establishes_mono; [apply (choice_spec _ _ _ Hlaw), index_where_NoDup| |done].
  intros w60 g8 (_ & Hnd3 & Hsub3).
  apply establishes_bind.
  eapply establishes_mono; [apply (redraw_dpd_spec _ _ w60 df_b); [done|]| |done].
  { by eapply subseteq_index_where_lt. }
  intros [drawn_c df_c] g9 (_ & Hsame_c & _).
  (* curing *)
  apply establishes_bind.
  eapply establishes_mono; [apply sample_size_spec| |done]. intros size4 g10 _.
  apply establishes_bind.
  eapply establishes_mono; [apply (choice_spec _ _ _ Hlaw), index_where_NoDup| |done].
  intros cur g11 (_ & Hnd4 & Hsub4).
  apply establishes_bind.
  eapply establishes_mono; [apply for_in_same_loans; [apply cure_spec|]| |done].
  { by eapply subseteq_index_where_lt. }
  intros df_d g12 Hsame_d. apply establishes_ret. split.
  - eauto using same_loans_trans.
  - unfold cascading. cbn. split_and!; try done.
    intros k idx Hk Hv. apply index_where_spec.
    specialize (Hdrawn k idx 30%Z Hk Hv).
    destruct (df_a !! idx) as [row|]; [|done]. injection Hdrawn as Hrow.
    exists row. by rewrite Hrow.
Qed.

Lemma evolve_blocks_spec df (g : G) :
  permutation_law →
  establishes (evolve_blocks df) g
    (λ '(det, imp, L, df') _,
       same_loans df df'
       ∧ (NoDup det ∧ NoDup imp
          ∧ det ⊆ seq 0 (length df)
          ∧ imp ⊆ filter (λ i, i ∉ det) (seq 0 (length df))
          ∧ Py.int (Py.float_of_int (Z.of_nat (length df)) * 0.25)%float
            = inr (Z.of_nat (length det))
          ∧ Py.int (Py.float_of_int (Z.of_nat (length df)) * 0.15)%float
            = inr (Z.of_nat (length imp)))
       ∧ ∃ df_3, length df_3 = length df ∧ cascading df_3 L)
    benign.
Proof.
  intros Hlaw. unfold evolve_blocks.
  set (df0 := set_reporting_date _ <$> df).
  assert (same_loans df df0) as H0 by by apply same_loans_fmap.
  assert (length df0 = length df) as Hlen0 by by apply same_loans_length.
  apply establishes_bind.
  eapply establishes_mono; [apply balance_reduction_spec| |done].
  intros df1 g1 H1. apply establishes_bind.
  eapply establishes_mono; [by apply credit_score_changes_spec| |done].
  intros [[det imp] df2] g2 (H2 & Hnd1 & Hnd2 & Hsub1 & Hsub2 & Hsz1 & Hsz2).
  apply establishes_bind.
  eapply establishes_mono; [by apply dpd_changes_spec| |done].
  intros [L df3] g3 [H3 Hcascade]. apply establishes_ret.
  assert (length df1 = length df) as Hlen1
    by (rewrite (same_loans_length _ _ H1); done).
  unfold index in *. rewrite Hlen1 in Hsub1, Hsub2. rewrite Hlen0 in Hsz1, Hsz2.
  split_and!; try done.
  - eapply same_loans_trans; [|by apply same_loans_fmap].
    eauto using same_loans_trans.
  - exists df2. split; [|done]. rewrite (same_loans_length _ _ H2). done.
Qed.

End Specs.

(** ** Two runs *)

Create HintDb agree.

Section Agree.
Context {G1 G2 : Type} (R : G1 → G2 → Prop).

Lemma agree_ret {A} (a : A) : agree R (mret a) (mret a).
Proof. intros g1 g2 HR. by split. Qed.

Lemma agree_raise {A} (e : Py.exn) : agree R (raise (A := A) e) (raise e).
Proof. by intros g1 g2 HR. Qed.

Lemma agree_lift_exn {A} (r : Py.exn + A) : agree R (lift_exn r) (lift_exn r).
Proof. intros g1 g2 HR. unfold lift_exn. by destruct r. Qed.

Lemma agree_bind {A B} (m1 : M G1 A) (m2 : M G2 A) (f1 : A → M G1 B) (f2 : A → M G2 B) :
  agree R m1 m2 → (∀ a, agree R (f1 a) (f2 a)) → agree R (m1 ≫= f1) (m2 ≫= f2).
Proof.
  intros Hm Hf g1 g2 HR. specialize (Hm g1 g2 HR). unfold mbind, M_bind.
  destruct (m1 g1) as [e1|[a1 g1']], (m2 g2) as [e2|[a2 g2']]; try done.
  destruct Hm as [<- HR']. by apply Hf.
Qed.

Lemma agree_for_in {A S} (xs : list A) (body1 : A → S → M G1 S) (body2 : A → S → M G2 S) :
  (∀ x s, agree R (body1 x s) (body2 x s)) →
  ∀ s, agree R (for_in xs body1 s) (for_in xs body2 s).
Proof.
  intros Hbody. induction xs as [|x xs IH]; intros s; cbn [for_in].
  - apply agree_ret.
  - by apply agree_bind.
Qed.

Lemma agree_mapM {A B} (f1 : A → M G1 B) (f2 : A → M G2 B) (xs : list A) :
  (∀ x, agree R (f1 x) (f2 x)) → agree R (mapM f1 xs) (mapM f2 xs).
Proof.
  intros Hf. induction xs as [|x xs IH]; cbn [mapM].
  - apply agree_ret.
  - apply agree_bind; [done|]. intros b. apply agree_bind; [done|].
    intros bs. apply agree_ret.
Qed.

Lemma agree_at_get {V} (col : LoanRecord → V) idx df : agree R (at_get col idx df) (at_get col idx df).
Proof. unfold at_get. destruct (df !! idx); [apply agree_ret|apply agree_raise]. Qed.

Lemma agree_at_set set idx df : agree R (at_set set idx df) (at_set set idx df).
Proof. unfold at_set. case_decide; [apply agree_ret|apply agree_raise]. Qed.

Context `{!RandomState G1, !RandomState G2}.
Hypothesis HR : same_draws R.

Lemma agree_uniform low high : agree R (uniform low high) (uniform low high).
Proof.
  intros g1 g2 Hg. unfold uniform.
  destruct (same_random_sample R HR g1 g2 Hg) as [Hu Hg'].
  destruct (random_sample g1) as [u1 g1'], (random_sample g2) as [u2 g2'].
  simpl in *. by subst.
Qed.

Lemma agree_choice {A} (a : list A) size : agree R (choice a size) (choice a size).
Proof.
  unfold choice. case_decide; [apply agree_raise|].
  case_decide; [apply agree_raise|]. intros g1 g2 Hg.
  destruct (same_permutation R HR (length a) g1 g2 Hg) as [Hp Hg'].
  destruct (permutation (length a) g1) as [idx1 g1'],
    (permutation (length a) g2) as [idx2 g2'].
  simpl in *. subst. by destruct (mapM _ _).
Qed.

Lemma agree_choice_p {A} (a : list A) p : agree R (choice_p a p) (choice_p a p).
Proof.
  intros g1 g2 Hg. unfold choice_p.
  destruct (same_random_sample R HR g1 g2 Hg) as [Hu Hg'].
  destruct (random_sample g1) as [u1 g1'], (random_sample g2) as [u2 g2'].
  simpl in *. subst. by destruct (a !! _).
Qed.

Lemma agree_sample_size n fraction : agree R (sample_size n fraction) (sample_size n fraction).
Proof. apply agree_lift_exn. Qed.

#[local] Hint Resolve agree_ret agree_raise agree_lift_exn agree_at_get agree_at_set
  agree_uniform agree_choice agree_choice_p agree_sample_size : agree.

Ltac agree_step :=
  first [ apply agree_bind; [|intros ?]
        | apply agree_for_in; intros ? ?
        | apply agree_mapM; intros ?
        | progress eauto with agree ].

Lemma agree_calculate_lgd row : agree R (calculate_lgd row) (calculate_lgd row).
Proof. unfold calculate_lgd. repeat agree_step. Qed.

Lemma agree_recalculate df : agree R (recalculate df) (recalculate df).
Proof.
  unfold recalculate, calculate_pd_lgd. repeat agree_step.
Qed.

Lemma agree_evolve_blocks df : agree R (evolve_blocks df) (evolve_blocks df).
Proof.
  unfold evolve_blocks, balance_reduction, uniform_n, credit_score_changes,
    dpd_changes, redraw_dpd, deteriorate, improve, cure.
  repeat first [ agree_step | case_match ].
Qed.

Lemma agree_evolve_to_q4 df : agree R (evolve_to_q4 df) (evolve_to_q4 df).
Proof.
  unfold evolve_to_q4. apply agree_bind; [apply agree_evolve_blocks|].
  intros [[[? ?] ?] df']. apply agree_recalculate.
Qed.

(** C7. Two runs of the evolution on the same input snapshot, each in
    its own interpreter, seeded alike, with generators that deliver the
    same values step for step, return the same snapshot (or stop with
    the same exception): the result is a function of the input and of
    the values drawn, in the order the function draws them. *)
Theorem evolve_seeded_deterministic (s : Z) (df : DataFrame) :
  evolve_seeded (G := G1) s df = evolve_seeded (G := G2) s df.
Proof.
  unfold evolve_seeded.
  pose proof (agree_evolve_to_q4 df (seed s) (seed s) (same_seed R HR s)) as H.
  destruct (evolve_to_q4 df (seed s)) as [e1|[a1 g1]],
    (evolve_to_q4 df (seed s)) as [e2|[a2 g2]]; try done.
  - by subst.
  - by destruct H as [-> _].
Qed.
End Agree.

(** ** The evolution as a whole *)

Section Evolve.
Context {G : Type} `{!RandomState G}.

Lemma recalculate_same_loans df (g : G) E :
  establishes (recalculate df) g (λ df' _, same_loans df df') E.
Proof.
  unfold establishes. destruct (recalculate_rows df g) as (lgds & Hlen & ->).
  eapply same_loans_trans; [|by apply same_loans_fmap].
  eapply same_loans_trans; [|by apply same_loans_fmap].
  unfold same_loans. clear g. revert lgds Hlen.
  induction df as [|row df IH]; intros [|l lgds] Hlen; simplify_eq/=; [done|].
  f_equal. by apply IH.
Qed.

Lemma evolve_to_q4_spec df (g : G) :
  permutation_law →
  establishes (evolve_to_q4 df) g (λ df_q4 _, same_loans df df_q4) benign.
Proof.
  intros Hlaw. unfold evolve_to_q4. apply establishes_bind.
  eapply establishes_mono; [by apply evolve_blocks_spec| |done].
  intros [[[det imp] L] df1] g1 (H1 & _).
  eapply establishes_mono; [apply recalculate_same_loans| |done].
  intros df2 g2 H2. by eapply same_loans_trans.
Qed.

(** The snapshot an evolution call returns is a produced snapshot. *)
Lemma evolve_to_q4_produced df_q3 (g : G) df_q4 g' :
  evolve_to_q4 df_q3 g = inr (df_q4, g') → produced df_q4.
Proof.
  unfold evolve_to_q4. intros ([[[det imp] L] df] & g1 & _ & Hrun)%bind_inr.
  by exists df, g1, g'.
Qed.

(** C8. One evolution call conserves the population: the snapshot it
    returns lists the loan ids of its input, in the same order, hence the
    same set of ids and the same count. No write of the call falls on a
    label outside the index (the one way a frame could grow). *)
Theorem evolve_conserves_population (df_q3 : DataFrame) (g : G) :
  permutation_law →
  (∀ df_q4 g', evolve_to_q4 df_q3 g = inr (df_q4, g') →
     loan_id <$> df_q4 = loan_id <$> df_q3 ∧ length df_q4 = length df_q3)
  ∧ (∀ msg, evolve_to_q4 df_q3 g ≠ inl (Py.KeyError msg)).
Proof.
  intros Hlaw. pose proof (evolve_to_q4_spec df_q3 g Hlaw) as Hspec. split.
  - intros df_q4 g' Hrun.
    pose proof (establishes_inr _ _ _ _ _ _ Hspec Hrun) as Hsame.
    split; [done|by apply same_loans_length].
  - intros msg Hrun. exact (establishes_inl _ _ _ _ _ Hspec Hrun).
Qed.

(** C5, as the code has it. In the credit-score pass of one evolution
    call the deterioration and the improvement subsets are drawn without
    replacement (no label twice) and are disjoint: the improvement
    subset is drawn from the loans that remain once the deterioration
    subset is removed. The deterioration subset has [int(n * 0.25)]
    members and the improvement subset [int(n * 0.15)], both for [n] the
    size of the whole population. *)
Theorem score_drift_subsets (df_q3 : DataFrame) (g : G)
    (deterioration_indices improvement_indices : list nat)
    (L : dpd_locals) (df_q4 : DataFrame) (g' : G) :
  permutation_law →
  evolve_blocks df_q3 g
  = inr (deterioration_indices, improvement_indices, L, df_q4, g') →
  let n := Z.of_nat (length df_q3) in
  NoDup deterioration_indices ∧ NoDup improvement_indices
  ∧ (∀ i, i ∈ deterioration_indices → i < length df_q3)
  ∧ (∀ i, i ∈ improvement_indices →
          i < length df_q3 ∧ i ∉ deterioration_indices)
  ∧ Py.int (Py.float_of_int n * 0.25)%float
    = inr (Z.of_nat (length deterioration_indices))
  ∧ Py.int (Py.float_of_int n * 0.15)%float
    = inr (Z.of_nat (length improvement_indices)).
Proof.
  intros Hlaw Hrun n.
  pose proof (establishes_inr _ _ _ _ _ _ (evolve_blocks_spec df_q3 g Hlaw) Hrun)
    as (_ & (Hnd1 & Hnd2 & Hsub1 & Hsub2 & Hsz1 & Hsz2) & _).
  split_and!; try done.
  - intros i Hi%Hsub1%elem_of_seq. lia.
  - intros i [Hnot Hi%elem_of_seq]%Hsub2%list_elem_of_filter. split; [lia|done].
Qed.

(** What the locals of block 3 satisfy in every call that returns. *)
Lemma cascade_facts (df_q3 : DataFrame) (g : G)
    (deterioration_indices improvement_indices : list nat)
    (L : dpd_locals) (df_q4 : DataFrame) (g' : G) :
  permutation_law →
  evolve_blocks df_q3 g
  = inr (deterioration_indices, improvement_indices, L, df_q4, g') →
  dpd_30 L
  = index_where (λ row, (days_past_due row =? 30)%Z) (df_after_newly_delinquent L)
  ∧ dpd_60 L
    = index_where (λ row, (days_past_due row =? 60)%Z) (df_after_worsening_30 L)
  ∧ delinquent L
    = index_where (λ row, (0 <? days_past_due row)%Z) (df_after_worsening_60 L)
  ∧ worsening_30 L ⊆ dpd_30 L
  ∧ worsening_60 L ⊆ dpd_60 L
  ∧ curing L ⊆ delinquent L
  ∧ (∀ k idx v, newly_delinquent L !! k = Some idx →
                newly_delinquent_dpd L !! k = Some v →
                days_past_due <$> df_after_newly_delinquent L !! idx = Some v)
  ∧ (∀ k idx, newly_delinquent L !! k = Some idx →
              newly_delinquent_dpd L !! k = Some 30%Z →
              idx ∈ dpd_30 L).
Proof.
  intros Hlaw Hrun.
  pose proof (establishes_inr _ _ _ _ _ _ (evolve_blocks_spec df_q3 g Hlaw) Hrun)
    as (_ & _ & df_3 & _ & Hcascade).
  destruct Hcascade as (_ & H30 & H60 & Hdel & _ & Hw30 & Hw60 & Hcur & Hval & Hin).
  done.
Qed.

End Evolve.

(** ** The generator of the samples *)

Lemma lcg_permutation_law : permutation_law (G := Z).
Proof.
  intros n g. cbn. unfold rotate.
  rewrite Permutation_app_comm. by rewrite take_drop.
Qed.

Lemma lcg_counting_same_draws :
  @same_draws Z (Z * nat) Lcg.random_state Lcg.counting (λ s c, s = c.1).
Proof.
  split.
  - done.
  - by intros g1 [g2 n] ->.
  - by intros k g1 [g2 n] ->.
Qed.

(** ** The claims on the evolution, with their samples *)

(** C6. Within one evolution call the four delinquency steps cascade.
    For every generator and every call that returns: each pool is the
    mask of the frame as the loop before it left it; that frame holds, at
    every newly delinquent loan, the value step (a) drew for it; and
    every loan step (a) set to 30 is in the pool of step (b). And a loan
    can be written by several steps of one call: in the sample run loan 5
    is made delinquent at 30 by step (a), selected and worsened by step
    (b), and selected again and cured by step (d). *)
Theorem delinquency_steps_cascade :
  (∀ (G : Type) (RS : RandomState G) (df_q3 : DataFrame) (g : G)
     (deterioration_indices improvement_indices : list nat)
     (L : dpd_locals) (df_q4 : DataFrame) (g' : G),
     permutation_law →
     evolve_blocks df_q3 g
     = inr (deterioration_indices, improvement_indices, L, df_q4, g') →
     dpd_30 L
     = index_where (λ row, (days_past_due row =? 30)%Z) (df_after_newly_delinquent L)
     ∧ dpd_60 L
       = index_where (λ row, (days_past_due row =? 60)%Z) (df_after_worsening_30 L)
     ∧ delinquent L
       = index_where (λ row, (0 <? days_past_due row)%Z) (df_after_worsening_60 L)
     ∧ worsening_30 L ⊆ dpd_30 L
     ∧ worsening_60 L ⊆ dpd_60 L
     ∧ curing L ⊆ delinquent L
     ∧ (∀ k idx v, newly_delinquent L !! k = Some idx →
                   newly_delinquent_dpd L !! k = Some v →
                   days_past_due <$> df_after_newly_delinquent L !! idx = Some v)
     ∧ (∀ k idx, newly_delinquent L !! k = Some idx →
                 newly_delinquent_dpd L !! k = Some 30%Z →
                 idx ∈ dpd_30 L))
  ∧ (∃ det imp L df_q4,
       run (evolve_blocks sample_q3) 40 = inr (det, imp, L, df_q4)
       ∧ days_past_due <$> sample_q3 !! 5 = Some 0%Z
       ∧ newly_delinquent L = [5] ∧ newly_delinquent_dpd L = [30%Z]
       ∧ days_past_due <$> df_after_newly_delinquent L !! 5 = Some 30%Z
       ∧ worsening_30 L = [5]
       ∧ days_past_due <$> df_after_worsening_30 L !! 5 = Some 90%Z
       ∧ curing L = [5]
       ∧ days_past_due <$> df_q4 !! 5 = Some 60%Z).
Proof.
  split.
  - intros G RS. apply cascade_facts.
  - eexists _, _, _, _. split; [vm_compute; reflexivity|].
    vm_compute. split_and!; reflexivity.
Qed.

Lemma delinquency_steps_cascade_sample :
  match evolve_blocks sample_q3 (seed 40) with
  | inr (_, _, L, _, _) =>
      newly_delinquent L !! 0 = Some 5
      ∧ newly_delinquent_dpd L !! 0 = Some 30%Z
      ∧ 5 ∈ dpd_30 L
  | inl _ => False
  end.
Proof.
  destruct (evolve_blocks sample_q3 (seed 40)) as [e|[[[[det imp] L] df_q4] g']] eqn:Hrun.
  - vm_compute in Hrun. discriminate.
  - pose proof Hrun as Hval. vm_compute in Hval.
    assert (newly_delinquent L !! 0 = Some 5 ∧ newly_delinquent_dpd L !! 0 = Some 30%Z)
      as [Hk Hv].
    { injection Hval as _ _ <- _ _. split; reflexivity. }
    split_and!; [done..|].
    exact (proj2 (proj2 (proj2 (proj2 (proj2 (proj2 (proj2
             (proj1 delinquency_steps_cascade Z Lcg.random_state sample_q3 (seed 40)
                det imp L df_q4 g' lcg_permutation_law Hrun))))))) 0 5 Hk Hv).
Defined.

Lemma score_drift_subsets_sample :
  match evolve_blocks sample_q3 (seed 42) with
  | inr (deterioration_indices, improvement_indices, _, _, _) =>
      NoDup deterioration_indices ∧ NoDup improvement_indices
      ∧ length deterioration_indices = 5 ∧ length improvement_indices = 3
      ∧ Forall (λ i, i ∉ deterioration_indices) improvement_indices
  | inl _ => False
  end.
Proof.
  destruct (evolve_blocks sample_q3 (seed 42)) as [e|[[[[det imp] L] df_q4] g']] eqn:Hrun.
  - vm_compute in Hrun. discriminate.
  - destruct (score_drift_subsets sample_q3 (seed 42) det imp L df_q4 g'
                lcg_permutation_law Hrun)
      as (Hnd1 & Hnd2 & _ & Himp & Hsz1 & Hsz2).
    assert (Py.int (Py.float_of_int (Z.of_nat (length sample_q3)) * 0.25)%float
            = inr 5%Z) as H5 by (vm_compute; reflexivity).
    assert (Py.int (Py.float_of_int (Z.of_nat (length sample_q3)) * 0.15)%float
            = inr 3%Z) as H3 by (vm_compute; reflexivity).
    cbv zeta in Hsz1, Hsz2. rewrite H5 in Hsz1. rewrite H3 in Hsz2.
    split_and!; [done|done| | |].
    + injection Hsz1 as Hsz1. lia.
    + injection Hsz2 as Hsz2. lia.
    + apply Forall_forall. intros i Hi. by apply Himp.
Defined.

(** C5, the claim refuted. The sample has 20 loans. The deterioration
    subset has 5 of them, so 15 remain; the improvement subset has 3
    members, which is [int(20 * 0.15)], where 15% of the 15 remaining
    loans would be [int(15 * 0.15) = 2]. For the 5000 loans the module
    generates, the sizes are 1250 and 750, not 1250 and 562. *)
Lemma improvement_subset_is_sized_on_the_whole_population :
  ∃ det imp L df_q4,
    run (evolve_blocks sample_q3) 42 = inr (det, imp, L, df_q4)
    ∧ length sample_q3 = 20 ∧ length det = 5 ∧ length imp = 3
    ∧ Py.int (Py.float_of_int 20 * 0.15)%float = inr 3%Z
    ∧ Py.int (Py.float_of_int (20 - 5) * 0.15)%float = inr 2%Z
    ∧ Py.int (Py.float_of_int 5000 * 0.25)%float = inr 1250%Z
    ∧ Py.int (Py.float_of_int 5000 * 0.15)%float = inr 750%Z
    ∧ Py.int (Py.float_of_int (5000 - 1250) * 0.15)%float = inr 562%Z.
Proof.
  eexists _, _, _, _. split; [vm_compute; reflexivity|].
  vm_compute. split_and!; reflexivity.
Qed.

Lemma evolve_conserves_population_sample :
  match evolve_to_q4 sample_q3 (seed 42) with
  | inr (df_q4, _) =>
      loan_id <$> df_q4 = loan_id <$> sample_q3 ∧ length df_q4 = 20
  | inl _ => False
  end.
Proof.
  destruct (evolve_to_q4 sample_q3 (seed 42)) as [e|[df_q4 g']] eqn:Hrun.
  - vm_compute in Hrun. discriminate.
  - exact (proj1 (evolve_conserves_population sample_q3 (seed 42) lcg_permutation_law)
             df_q4 g' Hrun).
Defined.

Lemma evolve_seeded_deterministic_sample :
  @evolve_seeded Z Lcg.random_state 42 sample_q3
  = @evolve_seeded (Z * nat) Lcg.counting 42 sample_q3.
Proof.
  exact (evolve_seeded_deterministic _ lcg_counting_same_draws 42 sample_q3).
Defined.

(** * Further properties of the module *)

(** ** The loan identifiers *)

Example loan_ids_values :
  loan_ids 3 = ["LN0000001"; "LN0000002"; "LN0000003"]
  ∧ zfill 7 (str 12345678) = "12345678" ∧ zfill 7 (str (-42)) = "-000042".
Proof. vm_compute. done. Qed.

(** The digits of a positive number start with a digit from 1 to 9. *)
Lemma pretty_N_char_plain (d : N) :
  (0 < d < 10)%N →
  pretty_N_char d ≠ "0"%char ∧ pretty_N_char d ≠ "+"%char ∧ pretty_N_char d ≠ "-"%char.
Proof.
  intros [Hpos Hdigit]. destruct d as [|p]; [lia|]. clear Hpos.
  repeat (destruct p as [p|p|]; try lia); by compute.
Qed.

Lemma pretty_N_go_plain (x : N) (s : string) : (0 < x)%N → plain (pretty_N_go x s).
Proof.
  revert s. induction x as [x IH] using (well_founded_induction N.lt_wf_0).
  intros s Hx. rewrite pretty_N_go_step by done.
  destruct (N.eq_0_gt_0_cases (x `div` 10)) as [Hq|Hq].
  - rewrite Hq, pretty_N_go_0. eexists _, _. split; [done|].
    apply N.div_small_iff in Hq; [|done].
    rewrite N.mod_small by done. by apply pretty_N_char_plain.
  - apply IH; [|done]. by apply N.div_lt.
Qed.

Lemma str_plain (i : Z) : (0 < i)%Z → plain (str i).
Proof.
  destruct i as [|p|p]; try done. intros _.
  unfold str, pretty, pretty_Z, pretty, pretty_positive, pretty, pretty_N.
  rewrite decide_False by done. by apply pretty_N_go_plain.
Qed.

Lemma zfill_plain width s :
  plain s → zfill width s = zeros (width - String.length s) +:+ s.
Proof.
  intros (c & rest & -> & H0 & Hp & Hm). unfold zfill.
  case_decide as Hw.
  - by replace (width - _) with 0 by lia.
  - rewrite decide_False; [done|]. by intros [?|?].
Qed.

Lemma zeros_app_inj a b s1 s2 :
  plain s1 → plain s2 → zeros a +:+ s1 = zeros b +:+ s2 → s1 = s2.
Proof.
  intros (c1 & r1 & -> & H1 & _) (c2 & r2 & -> & H2 & _).
  revert b. induction a as [|a IH]; intros [|b]; cbn; intros Heq.
  - done.
  - by injection Heq as -> _.
  - by injection Heq as <- _.
  - injection Heq as Heq. by eapply IH.
Qed.

(** X1. [generate_base_portfolio] gives every loan an identifier of its
    own: the list of identifiers it builds for [n_loans] loans has
    [n_loans] entries and no entry twice, whatever [n_loans] is (beyond
    9,999,999 loans the zero padding stops and the identifiers get
    longer, but they stay distinct). *)
Theorem loan_ids_unique (n_loans : nat) :
  NoDup (loan_ids n_loans) ∧ length (loan_ids n_loans) = n_loans.
Proof.
  unfold loan_ids. split; [|by rewrite length_fmap, length_seq].
  apply NoDup_fmap_2_strong; [|apply NoDup_seq].
  intros i j Hi Hj Heq. apply elem_of_seq in Hi, Hj.
  injection Heq as Heq.
  rewrite !zfill_plain in Heq by (apply str_plain; lia).
  apply zeros_app_inj in Heq; [|apply str_plain; lia..].
  apply (inj pretty) in Heq. lia.
Qed.

(** ** The risk parameters as functions of the loan *)

(** The table on all combinations of score bucket and delinquency bucket
    of two loans of one product, the second with the lower score and the
    longer delinquency. *)
Lemma pd_12m_rule_mono (score score' dpd dpd' : Z) (p : option Product) :
  (score' ≤ score)%Z → (0 ≤ dpd ≤ dpd')%Z →
  (pd_12m_rule score dpd p <=? pd_12m_rule score' dpd' p)%float = true
  ∧ (Py.round 6 (pd_12m_rule score dpd p)
     <=? Py.round 6 (pd_12m_rule score' dpd' p))%float = true
  ∧ ((0.03 <? Py.round 6 (pd_12m_rule score dpd p))%float = true →
     (0.03 <? Py.round 6 (pd_12m_rule score' dpd' p))%float = true).
Proof.
  intros Hs Hd. unfold pd_12m_rule, base_pd, dpd_multiplier.
  destruct (Z.leb_spec 750 score), (Z.leb_spec 700 score), (Z.leb_spec 650 score),
    (Z.leb_spec 600 score),
    (Z.leb_spec 750 score'), (Z.leb_spec 700 score'), (Z.leb_spec 650 score'),
    (Z.leb_spec 600 score'); try lia;
  destruct (Z.eqb_spec dpd 0), (Z.leb_spec dpd 30), (Z.leb_spec dpd 90),
    (Z.eqb_spec dpd' 0), (Z.leb_spec dpd' 30), (Z.leb_spec dpd' 90); try lia;
  destruct p as [[]|]; vm_compute; split_and!;
    first [reflexivity | intros Hpd; first [reflexivity | exact Hpd]].
Qed.

Lemma pd_bounds_cases (row : LoanRecord) :
  let pd := calculate_12m_pd row in
  let score := credit_score_current row in
  let dpd := days_past_due row in
  let p := product_of (product_type row) in
  (0.0035 <=? Py.round 6 pd)%float = true
  ∧ (Py.round 6 pd <=? 1)%float = true
  ∧ (0.0105 <=? Py.round 6 (Py.min (pd * 3.0)%float 1.0%float))%float = true
  ∧ (Py.round 6 (Py.min (pd * 3.0)%float 1.0%float) <=? 1)%float = true
  ∧ (0.03 <? Py.round 6 pd)%float
    = negb (Qle_bool (pd_12m_exact score dpd p) (3 # 100)).
Proof.
  intros pd score dpd p. subst pd score dpd p. rewrite calculate_12m_pd_rule.
  unfold pd_12m_exact, base_pd_exact, dpd_multiplier_exact,
    pd_12m_rule, base_pd, dpd_multiplier.
  destruct (product_of (product_type row)) as [[]|];
    destruct (750 <=? credit_score_current row)%Z;
    [|destruct (700 <=? credit_score_current row)%Z;
      [|destruct (650 <=? credit_score_current row)%Z;
        [|destruct (600 <=? credit_score_current row)%Z]]..];
    (destruct (days_past_due row =? 0)%Z;
     [|destruct (days_past_due row <=? 30)%Z;
       [|destruct (days_past_due row <=? 90)%Z]]);
    vm_compute; split_and!; reflexivity.
Qed.

(** The stage a snapshot stores is the staging rule on the row as the
    snapshot stores it. *)
Lemma stage_row_staged l row :
  let r := ecl_row (stage_row (risk_parameters_row l row)) in
  ifrs9_stage r = determine_stage r
  ∧ (ifrs9_stage r = 1 ∨ ifrs9_stage r = 2 ∨ ifrs9_stage r = 3)%Z.
Proof.
  cbv zeta.
  change (ifrs9_stage (ecl_row (stage_row (risk_parameters_row l row))))
    with (determine_stage (risk_parameters_row l row)).
  split; [done|].
  unfold determine_stage. repeat case_match; auto.
Qed.

Lemma determine_stage_rule (l : float) (row : LoanRecord) :
  determine_stage (risk_parameters_row l row)
  = stage_rule (days_past_due row)
      (credit_score_origination row - credit_score_current row)
      (Py.round 6 (calculate_12m_pd row)).
Proof.
  unfold determine_stage, stage_rule.
  change (pd_12m (risk_parameters_row l row)) with (Py.round 6 (calculate_12m_pd row)).
  change (days_past_due (risk_parameters_row l row)) with (days_past_due row).
  change (credit_score_origination (risk_parameters_row l row))
    with (credit_score_origination row).
  change (credit_score_current (risk_parameters_row l row))
    with (credit_score_current row).
  generalize (0.03 <? Py.round 6 (calculate_12m_pd row))%float. intros b.
  by repeat case_match.
Qed.

Section Audit.
Context {G : Type} `{!RandomState G}.

Lemma produced_staged (snapshot : DataFrame) :
  produced (G := G) snapshot →
  Forall (λ r, ifrs9_stage r = determine_stage r
               ∧ (ifrs9_stage r = 1 ∨ ifrs9_stage r = 2 ∨ ifrs9_stage r = 3)%Z)
    snapshot.
Proof.
  intros Hp. apply Forall_forall. intros r Hr.
  destruct (produced_row _ _ Hp Hr) as (l & row & ->). apply stage_row_staged.
Qed.

(** X2. A snapshot the module produces can be re-audited from its own
    columns: in every row the stored stage is what [determine_stage]
    returns on the row as stored (with the stored, rounded 12-month PD),
    it is 1, 2 or 3, and the stored ECL rate is the stored (rounded) ECL
    amount divided by the stored balance, times 100, rounded to four
    decimals. *)
Theorem snapshot_rows_audit (snapshot : DataFrame) (r : LoanRecord) :
  produced (G := G) snapshot → r ∈ snapshot →
  ifrs9_stage r = determine_stage r
  ∧ (ifrs9_stage r = 1 ∨ ifrs9_stage r = 2 ∨ ifrs9_stage r = 3)%Z
  ∧ ecl_rate r = Py.round 4 (ecl_amount r / outstanding_balance r * 100)%float.
Proof.
  intros Hp Hr. destruct (produced_row _ _ Hp Hr) as (l & row & ->).
  destruct (stage_row_staged l row) as [Hs H123]. by split_and!.
Qed.

(** X3. The PDs a snapshot stores are probabilities within the range of
    the tables: the 12-month PD lies between 0.0035 (score of 750 or
    more, no days past due, a mortgage) and 1, the lifetime PD between
    0.0105 and 1, in binary64 comparison, for every row, whatever its
    score, days past due and product string. *)
Theorem snapshot_pd_bounds (snapshot : DataFrame) (r : LoanRecord) :
  produced (G := G) snapshot → r ∈ snapshot →
  (0.0035 <=? pd_12m r)%float = true
  ∧ (pd_12m r <=? 1)%float = true
  ∧ (0.0105 <=? pd_lifetime r)%float = true
  ∧ (pd_lifetime r <=? 1)%float = true.
Proof.
  intros Hp Hr. destruct (produced_row _ _ Hp Hr) as (l & row & ->).
  change (pd_12m (ecl_row _)) with (Py.round 6 (calculate_12m_pd row)).
  change (pd_lifetime (ecl_row _))
    with (Py.round 6 (Py.min (calculate_12m_pd row * 3.0)%float 1.0%float)).
  destruct (pd_bounds_cases row) as (H1 & H2 & H3 & H4 & _). by split_and!.
Qed.

End Audit.

(** X4. The test [pd_12m > 0.03] of the staging rule, on the rounded PD
    the risk-parameter pass stores, decides as exact decimal arithmetic
    does: it holds exactly when the product of the three table entries,
    capped at 1, exceeds 3/100. In particular a PD of exactly 0.03 (score
    650 to 699, no days past due, a personal loan: 0.025 * 1.0 * 1.2,
    whose binary64 product is the literal 0.03 itself) is not an
    increase: the comparison is strict. *)
Theorem sicr_threshold_exact (l : float) (row : LoanRecord) :
  let r := risk_parameters_row l row in
  (0.03 <? pd_12m r)%float
  = negb (Qle_bool (pd_12m_exact (credit_score_current row) (days_past_due row)
                      (product_of (product_type row))) (3 # 100)).
Proof.
  cbv zeta.
  change (pd_12m (risk_parameters_row l row)) with (Py.round 6 (calculate_12m_pd row)).
  by destruct (pd_bounds_cases row) as (_ & _ & _ & _ & ->).
Qed.

(** X5. The 12-month PD is monotone in the risk drivers: of two loans of
    the same product, the one with the lower (or equal) current score and
    the longer (or equal) delinquency has the higher (or equal) PD, as
    computed and as stored after rounding. Days past due are taken
    non-negative: a negative value falls into the bucket "up to 30" and
    gets a higher multiplier than 0. *)
Theorem pd_12m_monotone (row row' : LoanRecord) :
  product_type row = product_type row' →
  (credit_score_current row' ≤ credit_score_current row)%Z →
  (0 ≤ days_past_due row ≤ days_past_due row')%Z →
  (calculate_12m_pd row <=? calculate_12m_pd row')%float = true
  ∧ (Py.round 6 (calculate_12m_pd row) <=? Py.round 6 (calculate_12m_pd row'))%float
    = true.
Proof.
  intros Hp Hs Hd. rewrite !calculate_12m_pd_rule, Hp.
  destruct (pd_12m_rule_mono _ _ _ _ (product_of (product_type row')) Hs Hd)
    as (H1 & H2 & _).
  by split.
Qed.

(** X6. Staging is monotone in the risk drivers: of two loans of the
    same product and the same score at origination, the one with the
    lower (or equal) current score and the longer (or equal) delinquency
    is never put in a lower stage by the risk-parameter and staging
    passes, whatever LGD is drawn for either. *)
Theorem stage_monotone (l l' : float) (row row' : LoanRecord) :
  product_type row = product_type row' →
  credit_score_origination row = credit_score_origination row' →
  (credit_score_current row' ≤ credit_score_current row)%Z →
  (0 ≤ days_past_due row ≤ days_past_due row')%Z →
  (ifrs9_stage (ecl_row (stage_row (risk_parameters_row l row)))
   ≤ ifrs9_stage (ecl_row (stage_row (risk_parameters_row l' row'))))%Z.
Proof.
  intros Hp Ho Hs Hd.
  change (determine_stage (risk_parameters_row l row)
          ≤ determine_stage (risk_parameters_row l' row'))%Z.
  rewrite !determine_stage_rule. rewrite !calculate_12m_pd_rule, Hp, Ho.
  destruct (pd_12m_rule_mono _ _ _ _ (product_of (product_type row')) Hs Hd)
    as (_ & _ & Hpd).
  revert Hpd. unfold stage_rule.
  generalize (0.03 <? Py.round 6 (pd_12m_rule (credit_score_current row)
                                    (days_past_due row)
                                    (product_of (product_type row'))))%float.
  generalize (0.03 <? Py.round 6 (pd_12m_rule (credit_score_current row')
                                    (days_past_due row')
                                    (product_of (product_type row'))))%float.
  intros b' b Hpd.
  assert (b = true → b' = true) as Hb by exact Hpd. clear Hpd.
  destruct b, b'; try (by specialize (Hb eq_refl));
  destruct (Z.ltb_spec 90 (days_past_due row')), (Z.ltb_spec 90 (days_past_due row)),
    (Z.leb_spec 30 (days_past_due row')), (Z.leb_spec 30 (days_past_due row)),
    (Z.ltb_spec 100 (credit_score_origination row' - credit_score_current row')),
    (Z.ltb_spec 100 (credit_score_origination row' - credit_score_current row));
    lia.
Qed.

Lemma snapshot_rows_audit_sample :
  Forall (λ r, ifrs9_stage r = determine_stage r
               ∧ (ifrs9_stage r = 1 ∨ ifrs9_stage r = 2 ∨ ifrs9_stage r = 3)%Z
               ∧ ecl_rate r
                 = Py.round 4 (ecl_amount r / outstanding_balance r * 100)%float)
    sample_q3.
Proof.
  apply Forall_forall. intros r Hr.
  exact (snapshot_rows_audit sample_q3 r sample_q3_produced Hr).
Defined.

Lemma snapshot_pd_bounds_sample :
  Forall (λ r, (0.0035 <=? pd_12m r)%float = true
               ∧ (pd_12m r <=? 1)%float = true
               ∧ (0.0105 <=? pd_lifetime r)%float = true
               ∧ (pd_lifetime r <=? 1)%float = true)
    sample_q3.
Proof.
  apply Forall_forall. intros r Hr.
  exact (snapshot_pd_bounds sample_q3 r sample_q3_produced Hr).
Defined.

Lemma pd_12m_monotone_sample :
  (calculate_12m_pd sound_loan <=? calculate_12m_pd strained_loan)%float = true
  ∧ (Py.round 6 (calculate_12m_pd sound_loan)
     <=? Py.round 6 (calculate_12m_pd strained_loan))%float = true.
Proof.
  apply (pd_12m_monotone sound_loan strained_loan); [reflexivity|cbn; lia|cbn; lia].
Defined.

Lemma stage_monotone_sample :
  (ifrs9_stage (ecl_row (stage_row (risk_parameters_row 0.2 sound_loan)))
   ≤ ifrs9_stage (ecl_row (stage_row (risk_parameters_row 0.25 strained_loan))))%Z.
Proof.
  apply (stage_monotone 0.2 0.25 sound_loan strained_loan);
    [reflexivity|reflexivity|cbn; lia|cbn; lia].
Defined.

(** ** The evolution, row by row *)

Lemma score_column_lawful : lawful_column score_column.
Proof. split; [done|by intros []]. Qed.

Lemma dpd_column_lawful : lawful_column dpd_column.
Proof. split; [done|by intros []]. Qed.

Lemma rows_rel_refl (P : nat → LoanRecord → LoanRecord → Prop) df :
  (∀ i r, P i r r) → rows_rel P df df.
Proof. intros HP. split; [done|]. intros i r r' Hr Hr'. simplify_eq. apply HP. Qed.

Lemma rows_rel_mono (P Q : nat → LoanRecord → LoanRecord → Prop) df df' :
  rows_rel P df df' → (∀ i r r', df !! i = Some r → P i r r' → Q i r r') →
  rows_rel Q df df'.
Proof. intros [Hlen HP] HPQ. split; [done|]. eauto. Qed.

Lemma rows_rel_trans (P Q R : nat → LoanRecord → LoanRecord → Prop) df1 df2 df3 :
  rows_rel P df1 df2 → rows_rel Q df2 df3 →
  (∀ i r1 r2 r3, df1 !! i = Some r1 → df2 !! i = Some r2 →
                 P i r1 r2 → Q i r2 r3 → R i r1 r3) →
  rows_rel R df1 df3.
Proof.
  intros [Hlen1 HP] [Hlen2 HQ] HR. split; [congruence|].
  intros i r1 r3 H1 H3.
  destruct (lookup_lt_is_Some_2 df2 i) as [r2 H2].
  { rewrite Hlen1. by eapply lookup_lt_Some. }
  eauto.
Qed.

Lemma rows_rel_fmap (P : nat → LoanRecord → LoanRecord → Prop)
    (f : LoanRecord → LoanRecord) df :
  (∀ i r, P i r (f r)) → rows_rel P df (f <$> df).
Proof.
  intros HP. split; [by rewrite length_fmap|].
  intros i r r' Hr Hr'. rewrite list_lookup_fmap, Hr in Hr'. simplify_eq/=. apply HP.
Qed.

Lemma rows_rel_lookup (P : nat → LoanRecord → LoanRecord → Prop) df df' i r :
  rows_rel P df df' → df !! i = Some r → ∃ r', df' !! i = Some r' ∧ P i r r'.
Proof.
  intros [Hlen HP] Hr. destruct (lookup_lt_is_Some_2 df' i) as [r' Hr'].
  { rewrite Hlen. by eapply lookup_lt_Some. }
  eauto.
Qed.

(** *** The clamps of the score loops

    The position of the leading bit of a mantissa. *)
Lemma digits2_pos_bounds (m : positive) :
  (2 ^ (Zpos (SpecFloat.digits2_pos m) - 1) ≤ Zpos m < 2 ^ Zpos (SpecFloat.digits2_pos m))%Z.
Proof.
  induction m as [m IH|m IH|]; cbn [SpecFloat.digits2_pos]; [| |by compute].
  all: rewrite Pos2Z.inj_succ, Z.pow_succ_r by lia.
  all: replace (Z.succ (Z.pos (digits2_pos m)) - 1)%Z
         with (Z.succ (Z.pos (digits2_pos m) - 1)) by lia.
  all: rewrite Z.pow_succ_r by lia; lia.
Qed.

(** The mantissa of a binary64 has at most 53 bits, and exactly 53
    above the subnormal exponent. *)
Lemma Prim2SF_mantissa (x : float) s m e :
  Prim2SF x = S754_finite s m e →
  (Zpos m < 2 ^ 53)%Z ∧ ((-1074 < e)%Z → (2 ^ 52 ≤ Zpos m)%Z).
Proof.
  intros Hx. pose proof (Prim2SF_valid x) as Hv. rewrite Hx in Hv.
  unfold SpecFloat.valid_binary, SpecFloat.bounded, SpecFloat.canonical_mantissa in Hv.
  apply andb_prop in Hv as [Hc _]. apply Z.eqb_eq in Hc.
  unfold SpecFloat.fexp, SpecFloat.emin, FloatOps.prec, FloatOps.emax in Hc.
  pose proof (digits2_pos_bounds m) as [Hlo Hhi].
  set (d := Zpos (SpecFloat.digits2_pos m)) in *.
  split.
  - assert (d ≤ 53)%Z by lia.
    eapply Z.lt_le_trans; [exact Hhi|]. by apply Z.pow_le_mono_r.
  - intros He. assert (d = 53)%Z as Hd by lia. by rewrite Hd in Hlo.
Qed.

(** [int(max(300, x))] is at least 300 and [int(min(850, x))] at most
    850 for every float [x] on which [int] returns. *)
Lemma int_max_300 (x : float) (v : Z) :
  Py.int (Py.max 300 x) = inr v → (300 ≤ v)%Z.
Proof.
  unfold Py.max. destruct (300 <? x)%float eqn:Hlt.
  2:{ vm_compute. intros [= <-]. done. }
  rewrite FloatAxioms.ltb_spec in Hlt. unfold Py.int.
  pose proof (Prim2SF_mantissa x) as Hm.
  destruct (Prim2SF x) as [s|s| |s m e]; try done.
  destruct s; [done|].
  destruct (Hm _ _ _ eq_refl) as [Hhi Hlo]. clear Hm.
  intros [= <-].
  change (Prim2SF 300) with (S754_finite false 5277655813324800 (-44)) in Hlt.
  unfold SFltb, SFcompare in Hlt.
  cbn -[Z.compare Pos.compare_cont] in Hlt. revert Hlt.
  destruct (Z.compare_spec (-44) e) as [Heq|He|He]; intros Hlt; [subst e| |done].
  - destruct (Pos.compare_cont Eq 5277655813324800 m) eqn:Hc; try done.
    apply (proj1 (Pos.compare_lt_iff _ _)) in Hc.
    rewrite Z.shiftr_div_pow2 by done.
    apply Z.div_le_lower_bound; [done|]. lia.
  - specialize (Hlo ltac:(lia)). destruct e as [|e|e].
    + rewrite Z.shiftl_0_r. lia.
    + rewrite Z.shiftl_mul_pow2 by done.
      assert (1 ≤ 2 ^ Z.pos e)%Z by (apply (Z.pow_le_mono_r 2 0); lia). nia.
    + rewrite Z.shiftr_div_pow2 by done.
      apply Z.div_le_lower_bound; [by apply Z.pow_pos_nonneg|].
      assert (2 ^ Z.pos e ≤ 2 ^ 43)%Z by (apply Z.pow_le_mono_r; lia). lia.
Qed.

Lemma int_min_850 (x : float) (v : Z) :
  Py.int (Py.min 850 x) = inr v → (v ≤ 850)%Z.
Proof.
  unfold Py.min. destruct (x <? 850)%float eqn:Hlt.
  2:{ vm_compute. intros [= <-]. done. }
  rewrite FloatAxioms.ltb_spec in Hlt. unfold Py.int.
  pose proof (Prim2SF_mantissa x) as Hm.
  destruct (Prim2SF x) as [s|s| |s m e]; try done.
  { by intros [= <-]. }
  destruct (Hm _ _ _ eq_refl) as [Hhi Hlo]. clear Hm.
  intros [= <-].
  assert (∀ a, (0 ≤ a → - a ≤ 850)%Z) as Hneg by lia.
  destruct s.
  { apply Hneg.
    destruct e;
      [by rewrite Z.shiftl_0_r|by apply Z.shiftl_nonneg|by apply Z.shiftr_nonneg]. }
  change (Prim2SF 850) with (S754_finite false 7476679068876800 (-43)) in Hlt.
  unfold SFltb, SFcompare in Hlt.
  cbn -[Z.compare Pos.compare_cont] in Hlt. revert Hlt.
  destruct (Z.compare_spec e (-43)) as [Heq|He|He]; intros Hlt; [subst e| |done].
  - destruct (Pos.compare_cont Eq m 7476679068876800) eqn:Hc; try done.
    apply (proj1 (Pos.compare_lt_iff _ _)) in Hc.
    rewrite Z.shiftr_div_pow2 by done.
    apply Z.lt_succ_r, Z.div_lt_upper_bound; [done|]. apply Pos2Z.pos_lt_pos in Hc.
    eapply Z.lt_trans; [exact Hc|reflexivity].
  - destruct e as [|e|e]; try lia.
    rewrite Z.shiftr_div_pow2 by done.
    apply Z.lt_succ_r, Z.div_lt_upper_bound; [by apply Z.pow_pos_nonneg|].
    assert (2 ^ 44 ≤ 2 ^ Z.pos e)%Z by (apply Z.pow_le_mono_r; lia).
    apply Z.lt_le_trans with (2 ^ 44 * Z.succ 850)%Z.
    { eapply Z.lt_trans; [exact Hhi|reflexivity]. }
    by apply Z.mul_le_mono_nonneg_r.
Qed.

Section Loops.
Context {G : Type} `{!RandomState G}.

(** A loop whose body writes one value into column [c] at the label it
    is given, over labels without repetition. *)
Lemma for_in_written {V S} (c : column V) (T : V → V → Prop)
    (frame : S → DataFrame) (body : nat → S → M G S) (xs : list nat) (s : S) (g : G) :
  lawful_column c → NoDup xs →
  (∀ idx s g, establishes (body idx s) g
     (λ s' _, ∃ row v, frame s !! idx = Some row
                ∧ frame s' = alter (write c v) idx (frame s)
                ∧ T (read c row) v) any_exn) →
  establishes (for_in xs body s) g
    (λ s' _, written c xs T (frame s) (frame s')) any_exn.
Proof.
  intros (Hgs & Hsg) Hnd Hbody. revert s g.
  induction Hnd as [|x xs Hx Hnd IH]; intros s g.
  - apply establishes_ret. apply rows_rel_refl. intros i r.
    split_and!; [by rewrite Hsg|done|by intros ?%not_elem_of_nil].
  - cbn [for_in]. apply establishes_bind.
    eapply establishes_mono; [apply Hbody| |done].
    intros s1 g1 (row & v & Hrow & Hs1 & HT).
    eapply establishes_mono; [apply IH| |done].
    intros s2 g2 [Hlen Hrel]. split.
    { rewrite Hlen, Hs1. apply length_alter. }
    intros i r r2 Hr Hr2.
    destruct (lookup_lt_is_Some_2 (frame s1) i) as [r1 Hr1].
    { rewrite Hs1, length_alter. by eapply lookup_lt_Some. }
    destruct (Hrel i r1 r2 Hr1 Hr2) as (Heq & Hout & Hin).
    rewrite Hs1 in Hr1. destruct (decide (i = x)) as [->|Hne].
    + rewrite list_lookup_alter, decide_True, Hr in Hr1 by done.
      simplify_eq/=. specialize (Hout Hx) as ->. unfold step. rewrite Hgs.
      split_and!; [done|by intros []%not_elem_of_cons|done].
    + rewrite list_lookup_alter_ne, Hr in Hr1 by done. simplify_eq.
      split_and!; [done| |].
      * intros [_ ?]%not_elem_of_cons. auto.
      * intros [?|?]%elem_of_cons; [done|auto].
Qed.

Lemma deteriorate_written idx df (g : G) :
  establishes (deteriorate idx df) g
    (λ df' _, ∃ row v, df !! idx = Some row
       ∧ df' = alter (write score_column v) idx df
       ∧ floored (credit_score_current row) v) any_exn.
Proof.
  unfold deteriorate. apply establishes_bind, establishes_uniform. intros change g1.
  apply establishes_bind. unfold at_get.
  destruct (df !! idx) as [row|] eqn:Hrow; [|done].
  apply establishes_ret, establishes_bind, establishes_lift_exn.
  destruct (Py.int _) as [e|v] eqn:Hint; [done|].
  unfold at_set. case_decide; [|done].
  apply establishes_ret. exists row, v. split_and!; [done|done|].
  by eapply int_max_300.
Qed.

Lemma improve_written idx df (g : G) :
  establishes (improve idx df) g
    (λ df' _, ∃ row v, df !! idx = Some row
       ∧ df' = alter (write score_column v) idx df
       ∧ capped (credit_score_current row) v) any_exn.
Proof.
  unfold improve. apply establishes_bind, establishes_uniform. intros change g1.
  apply establishes_bind. unfold at_get.
  destruct (df !! idx) as [row|] eqn:Hrow; [|done].
  apply establishes_ret, establishes_bind, establishes_lift_exn.
  destruct (Py.int _) as [e|v] eqn:Hint; [done|].
  unfold at_set. case_decide; [|done].
  apply establishes_ret. exists row, v. split_and!; [done|done|].
  by eapply int_min_850.
Qed.

Lemma cure_written idx df (g : G) :
  establishes (cure idx df) g
    (λ df' _, ∃ row v, df !! idx = Some row
       ∧ df' = alter (write dpd_column v) idx df ∧ v = cured (days_past_due row)) any_exn.
Proof.
  unfold cure. apply establishes_bind. unfold at_get.
  destruct (df !! idx) as [row|] eqn:Hrow; [|done].
  apply establishes_ret. unfold cured, at_set.
  destruct (days_past_due row =? 30)%Z eqn:H30;
    [|destruct (days_past_due row =? 60)%Z eqn:H60;
      [|destruct (90 <=? days_past_due row)%Z eqn:H90]].
  1-3: case_decide; [|done]; apply establishes_ret; exists row; eexists;
       split_and!; [done|done|by rewrite ?H30, ?H60, ?H90].
  apply establishes_ret. exists row, (days_past_due row).
  split_and!; [done| |by rewrite H30, H60, H90].
  apply list_eq. intros i. destruct (decide (i = idx)) as [->|?].
  - rewrite list_lookup_alter, decide_True, Hrow by done. by destruct row.
  - by rewrite list_lookup_alter_ne.
Qed.

Lemma redraw_dpd_written values p selected df (g : G) :
  NoDup selected →
  establishes (redraw_dpd values p selected df) g
    (λ '(_, df') _, written dpd_column selected (λ _ v, v ∈ values) df df') any_exn.
Proof.
  intros Hnd. unfold redraw_dpd.
  eapply establishes_mono;
    [apply (for_in_written dpd_column (λ _ v, v ∈ values) snd);
       [apply dpd_column_lawful|done|]| |done].
  - intros idx [drawn df1] g1. apply establishes_bind.
    eapply establishes_mono; [apply choice_p_spec| |done].
    intros v g2 Hv. apply establishes_bind. unfold at_set.
    case_decide as Hlt; [|done]. apply establishes_ret, establishes_ret.
    destruct (lookup_lt_is_Some_2 df1 idx Hlt) as [row Hrow].
    by exists row, v.
  - by intros [drawn df'] g'.
Qed.

Lemma choice_any {A} (a : list A) (size : Z) (g : G) :
  permutation_law → NoDup a →
  establishes (choice a size) g (λ sample _, NoDup sample ∧ sample ⊆ a) any_exn.
Proof.
  intros Hlaw Hnd. eapply establishes_mono; [by apply choice_spec| |done].
  by intros sample g' (_ & ? & ?).
Qed.

Lemma sample_size_any n fraction (g : G) (Q : Z → G → Prop) :
  (∀ size, Q size g) → establishes (sample_size n fraction) g Q any_exn.
Proof.
  intros HQ. eapply establishes_mono; [apply sample_size_spec| |done].
  by intros size g' [-> _].
Qed.

Lemma credit_score_changes_written n df (g : G) :
  permutation_law →
  establishes (credit_score_changes n df) g
    (λ '(det, imp, df') _,
       score_drift det imp df df'
       ∧ NoDup det ∧ NoDup imp ∧ (∀ i, i ∈ imp → i ∉ det)) any_exn.
Proof.
  intros Hlaw. unfold credit_score_changes.
  apply establishes_bind, sample_size_any. intros size1.
  apply establishes_bind.
  eapply establishes_mono; [apply choice_any, index_NoDup; done| |done].
  intros det g1 [Hdet _].
  apply establishes_bind, sample_size_any. intros size2.
  apply establishes_bind.
  eapply establishes_mono;
    [apply choice_any; [done|apply NoDup_filter, index_NoDup]| |done].
  intros imp g2 [Himp Hsub].
  apply establishes_bind.
  eapply establishes_mono;
    [apply (for_in_written score_column floored id);
       [apply score_column_lawful|done|]| |done].
  { intros idx df1 g3. apply deteriorate_written. }
  intros df1 g3 Hw1. apply establishes_bind.
  eapply establishes_mono;
    [apply (for_in_written score_column capped id);
       [apply score_column_lawful|done|]| |done].
  { intros idx df2 g4. apply improve_written. }
  intros df2 g4 Hw2. apply establishes_ret. split_and!; [by exists df1|done|done|].
  intros i Hi. apply Hsub in Hi. by apply list_elem_of_filter in Hi as [? _].
Qed.

(** A selection taken from a mask finds what the mask tests. *)
Lemma written_pool {V} (c : column V) xs (P : V → Prop) (T : V → V → Prop)
    mask df df' :
  written c xs T df df' →
  xs ⊆ index_where mask df →
  (∀ r, mask r = true → P (read c r)) →
  written c xs (λ d v, P d ∧ T d v) df df'.
Proof.
  intros Hw Hsub HP. eapply rows_rel_mono; [exact Hw|].
  intros i r r' Hr (Heq & Hout & Hin). split_and!; [done|done|].
  intros Hi. split; [|auto].
  apply Hsub, index_where_spec in Hi as (row & Hrow & Hmask).
  simplify_eq. auto.
Qed.

Lemma dpd_changes_written df (g : G) :
  permutation_law →
  establishes (dpd_changes df) g (λ '(L, df') _, dpd_steps L df df') any_exn.
Proof.
  intros Hlaw. unfold dpd_changes.
  apply establishes_bind, sample_size_any. intros size1.
  apply establishes_bind.
  eapply establishes_mono; [apply choice_any, index_where_NoDup; done| |done].
  intros newly g1 [Hnd1 Hsub1]. apply establishes_bind.
  eapply establishes_mono; [by apply redraw_dpd_written| |done].
  intros [drawn df_a] g2 Ha.
  apply establishes_bind, sample_size_any. intros size2.
  apply establishes_bind.
  eapply establishes_mono; [apply choice_any, index_where_NoDup; done| |done].
  intros w30 g3 [Hnd2 Hsub2]. apply establishes_bind.
  eapply establishes_mono; [by apply redraw_dpd_written| |done].
  intros [drawn_b df_b] g4 Hb.
  apply establishes_bind, sample_size_any. intros size3.
  apply establishes_bind.
  eapply establishes_mono; [apply choice_any, index_where_NoDup; done| |done].
  intros w60 g5 [Hnd3 Hsub3]. apply establishes_bind.
  eapply establishes_mono; [by apply redraw_dpd_written| |done].
  intros [drawn_c df_c] g6 Hc.
  apply establishes_bind, sample_size_any. intros size4.
  apply establishes_bind.
  eapply establishes_mono; [apply choice_any, index_where_NoDup; done| |done].
  intros curing g7 [Hnd4 Hsub4]. apply establishes_bind.
  eapply establishes_mono;
    [apply (for_in_written dpd_column (λ d v, v = cured d) id);
       [apply dpd_column_lawful|done|]| |done].
  { intros idx df1 g8. apply cure_written. }
  intros df_d g8 Hd. apply establishes_ret. unfold dpd_steps. cbn.
  split_and!.
  - apply (written_pool dpd_column _ (λ d, d = 0%Z) (λ _ v, v ∈ [30; 60]%Z)
             (λ row, (days_past_due row =? 0)%Z)); [done|done|].
    intros r Hr. cbn. lia.
  - apply (written_pool dpd_column _ (λ d, d = 30%Z) (λ _ v, v ∈ [60; 90]%Z)
             (λ row, (days_past_due row =? 30)%Z)); [done|done|].
    intros r Hr. cbn. lia.
  - apply (written_pool dpd_column _ (λ d, d = 60%Z) (λ _ v, v ∈ [90; 120]%Z)
             (λ row, (days_past_due row =? 60)%Z)); [done|done|].
    intros r Hr. cbn. lia.
  - apply (written_pool dpd_column _ (λ d, (0 < d)%Z) (λ d v, v = cured d)
             (λ row, (0 <? days_past_due row)%Z)); [done|done|].
    intros r Hr. cbn. lia.
Qed.

(** [uniform(low, high, n)] is the next [n] doubles, scaled. *)
Lemma uniform_n_draws low high n (g : G) :
  uniform_n low high n g
  = inr ((λ k, scale low high (draw k g)) <$> seq 0 n, advance n g).
Proof.
  unfold uniform_n. revert g. induction n as [|n IH]; intros g; [done|].
  cbn [replicate mapM]. unfold mbind, M_bind at 1. unfold uniform at 1.
  destruct (random_sample g) as [u g1] eqn:Hu.
  unfold mbind, M_bind at 1.
  fold (mapM (M := M G) (λ _ : (), uniform low high) (replicate n ())).
  rewrite IH. unfold mret, M_ret. cbn [seq fmap list_fmap advance].
  rewrite <- fmap_S_seq, <- list_fmap_compose. unfold draw, compose.
  cbn [advance]. by rewrite Hu.
Qed.

Lemma balance_reduction_rows df (g : G) :
  ∃ df_1, balance_reduction (length df) df g = inr (df_1, advance (length df) g)
    ∧ rows_rel (λ i r r1,
        r1 = set_outstanding_balance
               (outstanding_balance r * scale 0.96 0.99 (draw i g))%float r) df df_1.
Proof.
  eexists. unfold balance_reduction, mbind, M_bind. rewrite uniform_n_draws.
  split; [done|]. split.
  { rewrite length_zip_with, length_fmap, length_seq. lia. }
  intros i r r1 Hr Hr1.
  apply lookup_zip_with_Some in Hr1 as (r' & f & -> & Hr' & Hf).
  rewrite list_lookup_fmap in Hf.
  apply fmap_Some in Hf as (k & Hk & ->).
  apply lookup_seq in Hk as [-> _]. by simplify_eq.
Qed.

(** The body of [evolve_to_q4], block by block. *)
Lemma evolve_blocks_evolved df (g : G) :
  permutation_law →
  establishes (evolve_blocks df) g
    (λ '(det, imp, L, df') _, evolved df g det imp L df') any_exn.
Proof.
  intros Hlaw. unfold evolve_blocks. rewrite length_fmap.
  destruct (balance_reduction_rows (set_reporting_date (Date 2024 12 31) <$> df) g)
    as (df_1 & Hrun & Hrows).
  rewrite length_fmap in Hrun.
  apply establishes_bind. unfold establishes at 1. rewrite Hrun.
  apply establishes_bind.
  eapply establishes_mono; [by apply credit_score_changes_written| |done].
  intros [[det imp] df_2] g2 (Hdrift & Hnd1 & Hnd2 & Hdisj).
  apply establishes_bind.
  eapply establishes_mono; [by apply dpd_changes_written| |done].
  intros [L df_3] g3 Hsteps.
  apply establishes_ret. exists df_1, df_2, df_3.
  split; [|by split_and!].
  eapply rows_rel_trans;
    [apply (rows_rel_fmap
              (λ _ r r', r' = set_reporting_date (Date 2024 12 31) r)); done
    |exact Hrows|].
  by intros i r1 r2 r3 _ _ -> ->.
Qed.

Lemma evolve_to_q4_inv df (g : G) out g' :
  evolve_to_q4 df g = inr (out, g') →
  ∃ det imp L mid g1,
    evolve_blocks df g = inr (det, imp, L, mid, g1)
    ∧ recalculate mid g1 = inr (out, g').
Proof.
  unfold evolve_to_q4, mbind, M_bind.
  destruct (evolve_blocks df g) as [e|[[[[det imp] L] mid] g1]]; [done|].
  intros Hrun. by exists det, imp, L, mid, g1.
Qed.
End Loops.

Lemma step_score_keeps xs T i r r' :
  step score_column xs T i r r' →
  static_columns r' = static_columns r
  ∧ reporting_date r' = reporting_date r
  ∧ outstanding_balance r' = outstanding_balance r
  ∧ days_past_due r' = days_past_due r.
Proof. intros (Heq & _). by rewrite Heq. Qed.

Lemma step_dpd_keeps xs T i r r' :
  step dpd_column xs T i r r' →
  static_columns r' = static_columns r
  ∧ reporting_date r' = reporting_date r
  ∧ outstanding_balance r' = outstanding_balance r
  ∧ credit_score_current r' = credit_score_current r.
Proof. intros (Heq & _). by rewrite Heq. Qed.

Lemma step_cases {V} (c : column V) xs T i r r' :
  step c xs T i r r' → read c r' = read c r ∨ T (read c r) (read c r').
Proof.
  intros (_ & Hout & Hin). destruct (decide (i ∈ xs)); [auto|].
  left. by rewrite Hout.
Qed.

Section Evolved.
Context {G : Type} `{!RandomState G}.

Lemma recalculate_lookup mid (g1 : G) out g' i m :
  recalculate mid g1 = inr (out, g') → mid !! i = Some m →
  ∃ l, out !! i = Some (ecl_row (stage_row (risk_parameters_row l m))).
Proof.
  intros Hrun Hm. destruct (recalculate_rows mid g1) as (lgds & Hlen & Hrows).
  rewrite Hrows in Hrun. injection Hrun as <- _.
  destruct (lookup_lt_is_Some_2 lgds i) as [l Hl].
  { rewrite Hlen. by eapply lookup_lt_Some. }
  exists l. rewrite !list_lookup_fmap, lookup_zip_with, Hl. simpl. by rewrite Hm.
Qed.

(** One row through one evolution call: the row after each loop, and the
    row the call returns. *)
Lemma evolve_row df (g : G) det imp L mid g1 out g' i r :
  permutation_law →
  evolve_blocks df g = inr (det, imp, L, mid, g1) →
  recalculate mid g1 = inr (out, g') →
  df !! i = Some r →
  ∃ rs r2 ra rb rc r3 l,
    step score_column det floored i
      (set_outstanding_balance
         (outstanding_balance r * scale 0.96 0.99 (draw i g))%float
         (set_reporting_date (Date 2024 12 31) r)) rs
    ∧ step score_column imp capped i rs r2
    ∧ (i ∈ imp → i ∉ det)
    ∧ df_after_newly_delinquent L !! i = Some ra
    ∧ step dpd_column (newly_delinquent L) becomes_delinquent i r2 ra
    ∧ df_after_worsening_30 L !! i = Some rb
    ∧ step dpd_column (worsening_30 L) worsens_30 i ra rb
    ∧ df_after_worsening_60 L !! i = Some rc
    ∧ step dpd_column (worsening_60 L) worsens_60 i rb rc
    ∧ step dpd_column (curing L) cures i rc r3
    ∧ out !! i
      = Some (ecl_row (stage_row (risk_parameters_row l
                (set_outstanding_balance (Py.round 2 (outstanding_balance r3)) r3)))).
Proof.
  intros Hlaw Hblocks Hrecalc Hr.
  pose proof (evolve_blocks_evolved df g Hlaw) as Hev.
  eapply establishes_inr in Hev; [|exact Hblocks].
  destruct Hev as (df_1 & df_2 & df_3 & H1 & (df_s & Hdet & Himp)
                   & (_ & _ & Hdisj) & (Ha & Hb & Hc & Hd) & ->).
  destruct (rows_rel_lookup _ _ _ _ _ H1 Hr) as (r1 & Hr1 & ->).
  destruct (rows_rel_lookup _ _ _ _ _ Hdet Hr1) as (rs & Hrs & Hs1).
  destruct (rows_rel_lookup _ _ _ _ _ Himp Hrs) as (r2 & Hr2 & Hs2).
  destruct (rows_rel_lookup _ _ _ _ _ Ha Hr2) as (ra & Hra & Hsa).
  destruct (rows_rel_lookup _ _ _ _ _ Hb Hra) as (rb & Hrb & Hsb).
  destruct (rows_rel_lookup _ _ _ _ _ Hc Hrb) as (rc & Hrc & Hsc).
  destruct (rows_rel_lookup _ _ _ _ _ Hd Hrc) as (r3 & Hr3 & Hsd).
  destruct (recalculate_lookup _ _ _ _ i
              (set_outstanding_balance (Py.round 2 (outstanding_balance r3)) r3) Hrecalc)
    as [l Hl].
  { by rewrite list_lookup_fmap, Hr3. }
  exists rs, r2, ra, rb, rc, r3, l. split_and!; auto.
Qed.

Lemma evolve_to_q4_length df (g : G) out g' :
  permutation_law → evolve_to_q4 df g = inr (out, g') → length out = length df.
Proof.
  intros Hlaw Hrun. apply same_loans_length.
  by eapply (establishes_inr _ _ _ _ _ _ (evolve_to_q4_spec df g Hlaw)).
Qed.

Lemma evolve_to_q4_blocks df (g : G) det imp L mid g1 :
  evolve_blocks df g = inr (det, imp, L, mid, g1) →
  evolve_to_q4 df g = recalculate mid g1.
Proof. intros Hb. unfold evolve_to_q4, mbind, M_bind. by rewrite Hb. Qed.

(** X7. One evolution call changes nothing of a loan but its reporting
    date, balance, current score, days past due and the six risk
    columns: in the snapshot it returns, every row has the loan id,
    product, origination date, original amount, score at origination,
    interest rate, industry sector and geography of the row at the same
    place in its input, and the reporting date 2024-12-31. *)
Theorem evolve_keeps_static_columns df (g : G) out g' :
  permutation_law →
  evolve_to_q4 df g = inr (out, g') →
  rows_rel (λ _ r r', static_columns r' = static_columns r
                      ∧ reporting_date r' = Date 2024 12 31) df out.
Proof.
  intros Hlaw Hrun. split; [by eapply evolve_to_q4_length|].
  intros i r r' Hr Hr'.
  destruct (evolve_to_q4_inv _ _ _ _ Hrun) as (det & imp & L & mid & g1 & Hb & Hrec).
  destruct (evolve_row _ _ _ _ _ _ _ _ _ i r Hlaw Hb Hrec Hr)
    as (rs & r2 & ra & rb & rc & r3 & l & Hs1 & Hs2 & _ & _ & Hsa & _ & Hsb & _ & Hsc
        & Hsd & Hout).
  rewrite Hr' in Hout. injection Hout as ->.
  destruct (step_score_keeps _ _ _ _ _ Hs1) as (E1 & D1 & _).
  destruct (step_score_keeps _ _ _ _ _ Hs2) as (E2 & D2 & _).
  destruct (step_dpd_keeps _ _ _ _ _ Hsa) as (Ea & Da & _).
  destruct (step_dpd_keeps _ _ _ _ _ Hsb) as (Eb & Db & _).
  destruct (step_dpd_keeps _ _ _ _ _ Hsc) as (Ec & Dc & _).
  destruct (step_dpd_keeps _ _ _ _ _ Hsd) as (Ed & Dd & _).
  split.
  - change (static_columns r3 = static_columns r).
    rewrite Ed, Ec, Eb, Ea, E2, E1. done.
  - change (reporting_date r3 = Date 2024 12 31).
    rewrite Dd, Dc, Db, Da, D2, D1. done.
Qed.

(** X8. The balance of row [i] in the snapshot an evolution call
    returns is the input balance of that row times the factor
    [0.96 + (0.99 - 0.96) * u], rounded to two decimals, where [u] is the
    [i]-th double (from 0) the generator delivers in the call: the
    amortization factors are the first draws of the call, one per loan in
    row order, and no later step touches the balance. *)
Theorem evolve_balances df (g : G) out g' :
  permutation_law →
  evolve_to_q4 df g = inr (out, g') →
  rows_rel (λ i r r',
      outstanding_balance r'
      = Py.round 2 (outstanding_balance r * scale 0.96 0.99 (draw i g))%float)
    df out.
Proof.
  intros Hlaw Hrun. split; [by eapply evolve_to_q4_length|].
  intros i r r' Hr Hr'.
  destruct (evolve_to_q4_inv _ _ _ _ Hrun) as (det & imp & L & mid & g1 & Hb & Hrec).
  destruct (evolve_row _ _ _ _ _ _ _ _ _ i r Hlaw Hb Hrec Hr)
    as (rs & r2 & ra & rb & rc & r3 & l & Hs1 & Hs2 & _ & _ & Hsa & _ & Hsb & _ & Hsc
        & Hsd & Hout).
  rewrite Hr' in Hout. injection Hout as ->.
  destruct (step_score_keeps _ _ _ _ _ Hs1) as (_ & _ & B1 & _).
  destruct (step_score_keeps _ _ _ _ _ Hs2) as (_ & _ & B2 & _).
  destruct (step_dpd_keeps _ _ _ _ _ Hsa) as (_ & _ & Ba & _).
  destruct (step_dpd_keeps _ _ _ _ _ Hsb) as (_ & _ & Bb & _).
  destruct (step_dpd_keeps _ _ _ _ _ Hsc) as (_ & _ & Bc & _).
  destruct (step_dpd_keeps _ _ _ _ _ Hsd) as (_ & _ & Bd & _).
  change (outstanding_balance (ecl_row _)) with (Py.round 2 (outstanding_balance r3)).
  by rewrite Bd, Bc, Bb, Ba, B2, B1.
Qed.

(** X9. The current score after one evolution call: a loan in neither
    the deterioration nor the improvement subset keeps its score; a loan
    of the deterioration subset ends with a score of at least 300
    ([int(max(300, ...))]) and a loan of the improvement subset with a
    score of at most 850 ([int(min(850, ...))]), whatever its score was
    and whatever shift is drawn. *)
Theorem evolve_scores df (g : G) det imp L mid g1 out g' :
  permutation_law →
  evolve_blocks df g = inr (det, imp, L, mid, g1) →
  evolve_to_q4 df g = inr (out, g') →
  rows_rel (λ i r r',
      (i ∉ det → i ∉ imp → credit_score_current r' = credit_score_current r)
      ∧ (i ∈ det → 300 ≤ credit_score_current r')%Z
      ∧ (i ∈ imp → credit_score_current r' ≤ 850)%Z) df out.
Proof.
  intros Hlaw Hb Hrun. split; [by eapply evolve_to_q4_length|].
  intros i r r' Hr Hr'.
  rewrite (evolve_to_q4_blocks _ _ _ _ _ _ _ Hb) in Hrun.
  destruct (evolve_row _ _ _ _ _ _ _ _ _ i r Hlaw Hb Hrun Hr)
    as (rs & r2 & ra & rb & rc & r3 & l & Hs1 & Hs2 & Hdisj & _ & Hsa & _ & Hsb & _ & Hsc
        & Hsd & Hout).
  rewrite Hr' in Hout. injection Hout as ->.
  destruct (step_dpd_keeps _ _ _ _ _ Hsa) as (_ & _ & _ & Sa).
  destruct (step_dpd_keeps _ _ _ _ _ Hsb) as (_ & _ & _ & Sb).
  destruct (step_dpd_keeps _ _ _ _ _ Hsc) as (_ & _ & _ & Sc).
  destruct (step_dpd_keeps _ _ _ _ _ Hsd) as (_ & _ & _ & Sd).
  change (credit_score_current (ecl_row _)) with (credit_score_current r3).
  rewrite Sd, Sc, Sb, Sa.
  destruct Hs1 as (_ & Hout1 & Hin1), Hs2 as (_ & Hout2 & Hin2).
  split_and!.
  - intros Hdet Himp. by rewrite Hout2, Hout1.
  - intros Hdet. rewrite Hout2 by (intros ?; by apply Hdisj). by apply Hin1.
  - apply Hin2.
Qed.

(** X10. Days past due through the four delinquency loops of one call.
    For every loan, with [rc] its row after the third loop: the first
    three loops never lower its days past due and the curing loop never
    raises them; a loan in none of the three worsening selections enters
    the curing loop with the days past due of the input, and a loan not
    selected for curing leaves the call with the days past due it had
    after the third loop. *)
Theorem evolve_dpd_selections df (g : G) det imp L mid g1 out g' :
  permutation_law →
  evolve_blocks df g = inr (det, imp, L, mid, g1) →
  evolve_to_q4 df g = inr (out, g') →
  rows_rel (λ i r r',
      ∃ rc, df_after_worsening_60 L !! i = Some rc
        ∧ (days_past_due r ≤ days_past_due rc)%Z
        ∧ (days_past_due r' ≤ days_past_due rc)%Z
        ∧ (i ∉ newly_delinquent L → i ∉ worsening_30 L → i ∉ worsening_60 L →
           days_past_due rc = days_past_due r)
        ∧ (i ∉ curing L → days_past_due r' = days_past_due rc)) df out.
Proof.
  intros Hlaw Hb Hrun. split; [by eapply evolve_to_q4_length|].
  intros i r r' Hr Hr'.
  rewrite (evolve_to_q4_blocks _ _ _ _ _ _ _ Hb) in Hrun.
  destruct (evolve_row _ _ _ _ _ _ _ _ _ i r Hlaw Hb Hrun Hr)
    as (rs & r2 & ra & rb & rc & r3 & l & Hs1 & Hs2 & _ & _ & Hsa & _ & Hsb & Hrc & Hsc
        & Hsd & Hout).
  rewrite Hr' in Hout. injection Hout as ->.
  exists rc. split; [done|].
  destruct (step_score_keeps _ _ _ _ _ Hs1) as (_ & _ & _ & D1).
  destruct (step_score_keeps _ _ _ _ _ Hs2) as (_ & _ & _ & D2).
  change (days_past_due (ecl_row _)) with (days_past_due r3).
  change (days_past_due (set_outstanding_balance _ _)) with (days_past_due r) in D1.
  rewrite <- D1, <- D2.
  pose proof (step_cases _ _ _ _ _ _ Hsa) as Ca.
  pose proof (step_cases _ _ _ _ _ _ Hsb) as Cb.
  pose proof (step_cases _ _ _ _ _ _ Hsc) as Cc.
  pose proof (step_cases _ _ _ _ _ _ Hsd) as Cd.
  destruct Hsa as (_ & Ha & _), Hsb as (_ & Hb' & _), Hsc as (_ & Hc & _),
    Hsd as (_ & Hd & _).
  cbn in Ca, Cb, Cc, Cd.
  unfold becomes_delinquent, worsens_30, worsens_60, cures, cured in *.
  set_unfold. split_and!.
  - repeat case_match; lia.
  - repeat case_match; lia.
  - intros ? ? ?. by rewrite Hc, Hb', Ha.
  - intros ?. by rewrite Hd.
Qed.

(** The days past due a call can leave, by the days past due it finds. *)
Lemma evolve_dpd_table df (g : G) out g' i r r' :
  permutation_law →
  evolve_to_q4 df g = inr (out, g') →
  df !! i = Some r → out !! i = Some r' →
  let d := days_past_due r in
  let d' := days_past_due r' in
  (d = 0 → d' ∈ [0; 30; 60; 90; 120])%Z
  ∧ (d = 30 → d' ∈ [0; 30; 60; 90; 120])%Z
  ∧ (d = 60 → d' ∈ [30; 60; 90; 120])%Z
  ∧ (90 ≤ d → d' = d ∨ d' = 60)%Z
  ∧ (d ≠ 0 → d ≠ 30 → d ≠ 60 → d < 90 → d' = d)%Z.
Proof.
  intros Hlaw Hrun Hr Hr'.
  destruct (evolve_to_q4_inv _ _ _ _ Hrun) as (det & imp & L & mid & g1 & Hb & Hrec).
  destruct (evolve_row _ _ _ _ _ _ _ _ _ i r Hlaw Hb Hrec Hr)
    as (rs & r2 & ra & rb & rc & r3 & l & Hs1 & Hs2 & _ & _ & Hsa & _ & Hsb & Hrc & Hsc
        & Hsd & Hout).
  rewrite Hr' in Hout. injection Hout as ->.
  destruct (step_score_keeps _ _ _ _ _ Hs1) as (_ & _ & _ & D1).
  destruct (step_score_keeps _ _ _ _ _ Hs2) as (_ & _ & _ & D2).
  change (days_past_due (ecl_row _)) with (days_past_due r3).
  change (days_past_due (set_outstanding_balance _ _)) with (days_past_due r) in D1.
  rewrite <- D1, <- D2.
  pose proof (step_cases _ _ _ _ _ _ Hsa) as Ca.
  pose proof (step_cases _ _ _ _ _ _ Hsb) as Cb.
  pose proof (step_cases _ _ _ _ _ _ Hsc) as Cc.
  pose proof (step_cases _ _ _ _ _ _ Hsd) as Cd.
  clear -Ca Cb Cc Cd. cbn in Ca, Cb, Cc, Cd.
  unfold becomes_delinquent, worsens_30, worsens_60, cures, cured in *.
  set_unfold. split_and!; intros; repeat case_match; lia.
Qed.

(** X11. The delinquency transitions of one quarter. A loan that is
    current in the input ends at 0, 30, 60, 90 or 120 days past due; so
    does a loan at 30; a loan at 60 ends at 30, 60, 90 or 120 and never
    returns to current; a loan at 90 or more keeps its days past due or is
    cured to 60, one notch only; and any other value (a loan at 45 days,
    say) is never changed. *)
Theorem evolve_dpd_transitions df (g : G) out g' :
  permutation_law →
  evolve_to_q4 df g = inr (out, g') →
  rows_rel (λ _ r r',
      let d := days_past_due r in
      let d' := days_past_due r' in
      (d = 0 → d' ∈ [0; 30; 60; 90; 120])%Z
      ∧ (d = 30 → d' ∈ [0; 30; 60; 90; 120])%Z
      ∧ (d = 60 → d' ∈ [30; 60; 90; 120])%Z
      ∧ (90 ≤ d → d' = d ∨ d' = 60)%Z
      ∧ (d ≠ 0 → d ≠ 30 → d ≠ 60 → d < 90 → d' = d)%Z) df out.
Proof.
  intros Hlaw Hrun. split; [by eapply evolve_to_q4_length|].
  intros i r r' Hr Hr'. by eapply evolve_dpd_table.
Qed.

(** A loan 60 days or more past due, or in stage 3 of a produced
    snapshot, is not in stage 1 after the call. *)
Lemma late_loans_row df (g : G) out g' i r r' :
  permutation_law →
  evolve_to_q4 df g = inr (out, g') →
  df !! i = Some r → out !! i = Some r' →
  ((60 ≤ days_past_due r)%Z → ifrs9_stage r' = 2%Z ∨ ifrs9_stage r' = 3%Z)
  ∧ (produced (G := G) df → ifrs9_stage r = 3%Z →
     ifrs9_stage r' = 2%Z ∨ ifrs9_stage r' = 3%Z).
Proof.
  intros Hlaw Hrun Hr Hr'.
  assert ((60 ≤ days_past_due r)%Z → ifrs9_stage r' = 2%Z ∨ ifrs9_stage r' = 3%Z) as H60.
  { intros Hd.
    pose proof (evolve_dpd_table df g out g' i r r' Hlaw Hrun Hr Hr') as Htable.
    pose proof (produced_staged out (evolve_to_q4_produced _ _ _ _ Hrun)) as Hst.
    rewrite Forall_forall in Hst. destruct (Hst r') as [-> _].
    { by eapply list_elem_of_lookup_2. }
    cbv zeta in Htable. set_unfold. unfold determine_stage.
    assert (30 ≤ days_past_due r')%Z as Hd' by lia.
    destruct (90 <? days_past_due r')%Z; [by right|].
    apply Z.leb_le in Hd' as ->. by left. }
  split; [done|].
  intros Hp H3. apply H60.
  pose proof (produced_staged df Hp) as Hst.
  rewrite Forall_forall in Hst. destruct (Hst r) as [Hs _].
  { by eapply list_elem_of_lookup_2. }
  rewrite Hs in H3. unfold determine_stage in H3.
  repeat case_match; lia.
Qed.

(** X12. No loan leaves stage 3 for stage 1 in one quarter. When the
    input is a snapshot the module produced, a loan that is 60 days or
    more past due in it, or in stage 3 of it (more than 90 days past
    due), is in stage 2 or 3 of the snapshot the evolution returns: the
    curing loop takes 90 days or more to 60 and 60 to 30, never to
    current, and 30 days past due are stage 2 whatever the score and the
    PD. *)
Theorem late_loans_stay_staged df (g : G) out g' :
  permutation_law →
  produced (G := G) df →
  evolve_to_q4 df g = inr (out, g') →
  rows_rel (λ _ r r',
      (60 ≤ days_past_due r)%Z ∨ ifrs9_stage r = 3%Z →
      ifrs9_stage r' = 2%Z ∨ ifrs9_stage r' = 3%Z) df out.
Proof.
  intros Hlaw Hp Hrun. split; [by eapply evolve_to_q4_length|].
  intros i r r' Hr Hr'.
  destruct (late_loans_row df g out g' i r r' Hlaw Hrun Hr Hr') as [H60 H3].
  intros [Hd|Hs]; auto.
Qed.

End Evolved.

(** ** The weighted draws of the delinquency loops *)

Section Weighted.
Context {G : Type} `{!RandomState G}.

Lemma choice_p_two {A} (x y : A) (p q t : float) (g : G) :
  (λ c, (c / List.last (cumsum 0 [p; q]) 0)%float) <$> cumsum 0 [p; q] = [t; 1%float] →
  (1 <=? (random_sample g).1)%float = false →
  choice_p [x; y] [p; q] g
  = inr (if (t <=? (random_sample g).1)%float then y else x, (random_sample g).2).
Proof.
  intros Hcdf H1. unfold choice_p. cbv zeta. rewrite Hcdf.
  destruct (random_sample g) as [u g']. cbn [fst snd] in *.
  unfold searchsorted_right. rewrite !filter_cons, filter_nil.
  rewrite (decide_False (P := ((1 <=? u)%float = true))) by (by rewrite H1).
  destruct (t <=? u)%float; [by rewrite decide_True|by rewrite decide_False].
Qed.

(** X13. How the weights of the three delinquency draws are realised.
    Each draw consumes one double [u] and, [u] being below 1 as numpy
    delivers it, never fails: a newly delinquent loan gets 30 days when
    [u < 0.7] and 60 otherwise, a worsening 30-day loan 60 days when
    [u < 0.6] and 90 otherwise, a worsening 60-day loan 90 days when
    [u < 0.7] and 120 otherwise (the cumulative weights sum to exactly 1
    in binary64, so that the thresholds are the first weights
    themselves). *)
Theorem weighted_draws_thresholds (g : G) :
  (1 <=? (random_sample g).1)%float = false →
  let u := (random_sample g).1 in
  let g' := (random_sample g).2 in
  choice_p [30; 60]%Z [0.7; 0.3]%float g = inr (if (0.7 <=? u)%float then 60 else 30, g')%Z
  ∧ choice_p [60; 90]%Z [0.6; 0.4]%float g = inr (if (0.6 <=? u)%float then 90 else 60, g')%Z
  ∧ choice_p [90; 120]%Z [0.7; 0.3]%float g
    = inr (if (0.7 <=? u)%float then 120 else 90, g')%Z.
Proof.
  intros H1. cbv zeta. split_and!; by apply choice_p_two; [vm_compute|].
Qed.

End Weighted.

(** ** What the evolution reads *)

Lemma related_ret {G A B} (R : A → B → Prop) a b :
  R a b → related (G := G) R (mret a) (mret b).
Proof. by intros HR g. Qed.

Lemma related_refl {G A} (m : M G A) : related eq m m.
Proof. intros g. by destruct (m g) as [e|[a g']]. Qed.

Lemma related_bind {G A B A' B'} (R : A → B → Prop) (R' : A' → B' → Prop)
    (m1 : M G A) (m2 : M G B) (f1 : A → M G A') (f2 : B → M G B') :
  related R m1 m2 → (∀ a b, R a b → related R' (f1 a) (f2 b)) →
  related R' (m1 ≫= f1) (m2 ≫= f2).
Proof.
  intros Hm Hf g. unfold mbind, M_bind. specialize (Hm g).
  destruct (m1 g) as [e1|[a g1]], (m2 g) as [e2|[b g2]]; try done.
  destruct Hm as [HR ->]. by apply Hf.
Qed.

Lemma related_for_in {G X S1 S2} (R : S1 → S2 → Prop) (xs : list X)
    (body1 : X → S1 → M G S1) (body2 : X → S2 → M G S2) :
  (∀ x s1 s2, R s1 s2 → related R (body1 x s1) (body2 x s2)) →
  ∀ s1 s2, R s1 s2 → related R (for_in xs body1 s1) (for_in xs body2 s2).
Proof.
  intros Hbody. induction xs as [|x xs IH]; intros s1 s2 HR; [by apply related_ret|].
  cbn [for_in]. eapply related_bind; [by apply Hbody|]. apply IH.
Qed.

Lemma same_inputs_length df df' : same_inputs df df' → length df' = length df.
Proof.
  intros H. by rewrite <- (length_fmap without_risk_columns df'), <- H, length_fmap.
Qed.

Lemma same_inputs_lookup df df' i :
  same_inputs df df' →
  without_risk_columns <$> df !! i = without_risk_columns <$> df' !! i.
Proof. intros H. by rewrite <- !list_lookup_fmap, H. Qed.

Lemma same_inputs_Forall2 df df' :
  same_inputs df df' ↔
  Forall2 (λ r r', without_risk_columns r = without_risk_columns r') df df'.
Proof.
  unfold same_inputs. by rewrite list_eq_Forall2, Forall2_fmap.
Qed.

Lemma same_inputs_alter (f : LoanRecord → LoanRecord) idx df df' :
  (∀ r, without_risk_columns (f r) = f (without_risk_columns r)) →
  same_inputs df df' → same_inputs (alter f idx df) (alter f idx df').
Proof.
  intros Hf H. unfold same_inputs.
  rewrite !(list_fmap_alter without_risk_columns f f) by (apply Forall_forall; auto).
  by rewrite H.
Qed.

Lemma same_inputs_fmap (f : LoanRecord → LoanRecord) df df' :
  (∀ r, without_risk_columns (f r) = f (without_risk_columns r)) →
  same_inputs df df' → same_inputs (f <$> df) (f <$> df').
Proof.
  intros Hf H. unfold same_inputs. rewrite <- !list_fmap_compose.
  rewrite (list_fmap_ext (without_risk_columns ∘ f) (f ∘ without_risk_columns) df)
    by (intros; apply Hf).
  rewrite (list_fmap_ext (without_risk_columns ∘ f) (f ∘ without_risk_columns) df')
    by (intros; apply Hf).
  rewrite !list_fmap_compose. by rewrite H.
Qed.

Lemma index_where_same (mask : LoanRecord → bool) df df' :
  (∀ r, mask (without_risk_columns r) = mask r) →
  same_inputs df df' → index_where mask df = index_where mask df'.
Proof.
  intros Hmask H. apply same_inputs_Forall2 in H. unfold index_where.
  enough (∀ f : nat → nat,
            imap (λ i row, (f i, row)) df ≫= (λ '(i, row), if mask row then [i] else [])
            = imap (λ i row, (f i, row)) df' ≫= (λ '(i, row), if mask row then [i] else []))
    as Hgen by apply (Hgen id).
  induction H as [|r r' df df' Hr _ IH]; intros f; [done|].
  assert (mask r = mask r') as Hm by (by rewrite <- (Hmask r), Hr, Hmask).
  cbn [imap mbind list_bind]. f_equal; [by rewrite Hm|].
  apply (IH (f ∘ S)).
Qed.

Lemma same_inputs_zip_with {A} (f : LoanRecord → A → LoanRecord) (xs : list A) df df' :
  (∀ r r' x, without_risk_columns r = without_risk_columns r' →
             without_risk_columns (f r x) = without_risk_columns (f r' x)) →
  same_inputs df df' → same_inputs (zip_with f df xs) (zip_with f df' xs).
Proof.
  intros Hf H. apply same_inputs_Forall2 in H. apply same_inputs_Forall2.
  revert xs. induction H as [|r r' df df' Hr _ IH]; intros [|x xs]; cbn; auto.
Qed.

Lemma related_eq {G A} (m1 m2 : M G A) : related eq m1 m2 → ∀ g, m1 g = m2 g.
Proof.
  intros H g. specialize (H g).
  destruct (m1 g) as [e1|[a g1]], (m2 g) as [e2|[b g2]]; try done.
  - by rewrite H.
  - by destruct H as [-> ->].
Qed.

Section Related.
Context {G : Type} `{!RandomState G}.

Lemma related_at_get {V} (col : LoanRecord → V) idx df df' :
  (∀ r, col (without_risk_columns r) = col r) →
  same_inputs df df' → related (G := G) eq (at_get col idx df) (at_get col idx df').
Proof.
  intros Hcol H g. unfold at_get. pose proof (same_inputs_lookup df df' idx H) as Hi.
  destruct (df !! idx) as [r|], (df' !! idx) as [r'|]; try done.
  apply (inj Some) in Hi. split; [|done].
  by rewrite <- (Hcol r), <- (Hcol r'), Hi.
Qed.

Lemma related_at_set (f : LoanRecord → LoanRecord) idx df df' :
  (∀ r, without_risk_columns (f r) = f (without_risk_columns r)) →
  same_inputs df df' →
  related (G := G) same_inputs (at_set f idx df) (at_set f idx df').
Proof.
  intros Hf H g. unfold at_set. rewrite (same_inputs_length _ _ H).
  case_decide; [|done]. split; [|done]. by apply same_inputs_alter.
Qed.

Lemma related_deteriorate idx df df' :
  same_inputs df df' →
  related (G := G) same_inputs (deteriorate idx df) (deteriorate idx df').
Proof.
  intros H. unfold deteriorate.
  eapply related_bind; [apply related_refl|]. intros change ? <-.
  eapply related_bind; [by apply related_at_get|]. intros score ? <-.
  eapply related_bind; [apply related_refl|]. intros v ? <-.
  by apply related_at_set.
Qed.

Lemma related_improve idx df df' :
  same_inputs df df' → related (G := G) same_inputs (improve idx df) (improve idx df').
Proof.
  intros H. unfold improve.
  eapply related_bind; [apply related_refl|]. intros change ? <-.
  eapply related_bind; [by apply related_at_get|]. intros score ? <-.
  eapply related_bind; [apply related_refl|]. intros v ? <-.
  by apply related_at_set.
Qed.

Lemma related_cure idx df df' :
  same_inputs df df' → related (G := G) same_inputs (cure idx df) (cure idx df').
Proof.
  intros H. unfold cure.
  eapply related_bind; [by apply related_at_get|]. intros current_dpd ? <-.
  repeat case_match; try by apply related_at_set. by apply related_ret.
Qed.

Lemma related_redraw_dpd values p selected df df' :
  same_inputs df df' →
  related (G := G) (λ s s', same_inputs s.2 s'.2)
    (redraw_dpd values p selected df) (redraw_dpd values p selected df').
Proof.
  intros H. unfold redraw_dpd.
  apply (related_for_in (λ s s' : list Z * DataFrame, same_inputs s.2 s'.2)); [|done].
  intros idx [drawn df1] [drawn' df1'] H1. cbn in H1.
  eapply related_bind; [apply related_refl|]. intros v ? <-.
  eapply related_bind; [by apply related_at_set|]. intros df2 df2' H2.
  by apply related_ret.
Qed.

Lemma related_credit_score_changes n df df' :
  same_inputs df df' →
  related (G := G) (λ s s', same_inputs s.2 s'.2)
    (credit_score_changes n df) (credit_score_changes n df').
Proof.
  intros H. unfold credit_score_changes, index.
  rewrite (same_inputs_length _ _ H).
  eapply related_bind; [apply related_refl|]. intros size ? <-.
  eapply related_bind; [apply related_refl|]. intros det ? <-.
  eapply related_bind; [apply related_refl|]. intros size' ? <-.
  eapply related_bind; [apply related_refl|]. intros imp ? <-.
  eapply related_bind; [apply related_for_in; [|done]; intros; by apply related_deteriorate|].
  intros df1 df1' H1.
  eapply related_bind; [apply related_for_in; [|done]; intros; by apply related_improve|].
  intros df2 df2' H2. by apply related_ret.
Qed.

Lemma related_dpd_changes df df' :
  same_inputs df df' →
  related (G := G) (λ s s', same_inputs s.2 s'.2) (dpd_changes df) (dpd_changes df').
Proof.
  intros H. unfold dpd_changes.
  rewrite (index_where_same _ df df') by done.
  eapply related_bind; [apply related_refl|]. intros size1 ? <-.
  eapply related_bind; [apply related_refl|]. intros newly ? <-.
  eapply related_bind; [by apply related_redraw_dpd|].
  intros [drawn df_a] [drawn' df_a'] Ha. cbn in Ha.
  rewrite (index_where_same _ df_a df_a') by done.
  eapply related_bind; [apply related_refl|]. intros size2 ? <-.
  eapply related_bind; [apply related_refl|]. intros w30 ? <-.
  eapply related_bind; [by apply related_redraw_dpd|].
  intros [drawn_b df_b] [drawn_b' df_b'] Hb. cbn in Hb.
  rewrite (index_where_same _ df_b df_b') by done.
  eapply related_bind; [apply related_refl|]. intros size3 ? <-.
  eapply related_bind; [apply related_refl|]. intros w60 ? <-.
  eapply related_bind; [by apply related_redraw_dpd|].
  intros [drawn_c df_c] [drawn_c' df_c'] Hc. cbn in Hc.
  rewrite (index_where_same _ df_c df_c') by done.
  eapply related_bind; [apply related_refl|]. intros size4 ? <-.
  eapply related_bind; [apply related_refl|]. intros curing ? <-.
  eapply related_bind; [apply related_for_in; [|done]; intros; by apply related_cure|].
  intros df_d df_d' Hd. by apply related_ret.
Qed.

Lemma related_evolve_blocks df df' :
  same_inputs df df' →
  related (G := G) (λ s s', same_inputs s.2 s'.2) (evolve_blocks df) (evolve_blocks df').
Proof.
  intros H. unfold evolve_blocks, balance_reduction.
  rewrite !length_fmap, (same_inputs_length _ _ H).
  eapply related_bind.
  { eapply related_bind; [apply related_refl|]. intros factors ? <-.
    apply related_ret.
    apply (same_inputs_zip_with
             (λ row f, set_outstanding_balance (outstanding_balance row * f)%float row)).
    - intros r r' x Hr.
      apply (f_equal outstanding_balance) in Hr as Hb. cbn in Hb.
      rewrite Hb. clear Hb. revert Hr.
      by destruct r, r'; cbn; intros [= -> -> -> -> -> -> -> -> -> -> -> ->].
    - apply (same_inputs_fmap (set_reporting_date (Date 2024 12 31))); [done|exact H]. }
  intros df1 df1' H1.
  eapply related_bind; [by apply related_credit_score_changes|].
  intros [[det imp] df2] [[det' imp'] df2'] H2. cbn in H2.
  eapply related_bind; [by apply related_dpd_changes|].
  intros [L df3] [L' df3'] H3. cbn in H3.
  apply related_ret. cbn.
  by apply (same_inputs_fmap
              (λ row, set_outstanding_balance (Py.round 2 (outstanding_balance row)) row)).
Qed.

Lemma mapM_calculate_lgd_same df df' (g : G) :
  same_inputs df df' → mapM calculate_lgd df g = mapM calculate_lgd df' g.
Proof.
  intros H.
  destruct (mapM_calculate_lgd df g) as (lgds & -> & Hlen & Hlook).
  destruct (mapM_calculate_lgd df' g) as (lgds' & -> & Hlen' & Hlook').
  pose proof (same_inputs_length _ _ H) as Hl. rewrite Hl. do 2 f_equal.
  apply list_eq. intros i. pose proof (same_inputs_lookup _ _ i H) as Hi.
  destruct (df !! i) as [r|] eqn:Hr, (df' !! i) as [r'|] eqn:Hr'; try done.
  - rewrite (Hlook _ _ Hr), (Hlook' _ _ Hr'). apply (inj Some) in Hi.
    apply (f_equal product_type) in Hi. cbn in Hi. by rewrite Hi.
  - apply lookup_ge_None in Hr, Hr'.
    rewrite !(proj2 (lookup_ge_None _ _)); [done|lia..].
Qed.

Lemma recalculate_same df df' (g : G) :
  same_inputs df df' → recalculate df g = recalculate df' g.
Proof.
  intros H.
  destruct (mapM_calculate_lgd df g) as (lgds & Hrun & Hlen & _).
  pose proof Hrun as Hrun'. rewrite (mapM_calculate_lgd_same _ _ _ H) in Hrun'.
  assert (∀ d : DataFrame, mapM calculate_lgd d g = inr (lgds, advance (5 * length df) g) →
            recalculate d g
            = inr (ecl_row <$> (stage_row <$> zip_with risk_parameters_row lgds d),
                   advance (5 * length df) g)) as Hrows.
  { intros d Hd. unfold recalculate, calculate_pd_lgd, mbind, M_bind.
    replace (mapM calculate_lgd (assign_apply _ _ (assign_apply _ _ d)) g)
      with (mapM calculate_lgd d g)
      by (unfold assign_apply; by rewrite !(mapM_calculate_lgd_fmap (G := G))).
    rewrite Hd. unfold mret, M_ret.
    by rewrite risk_columns_rows, calculate_ecl_rows, assign_ifrs9_stage_rows. }
  rewrite (Hrows df Hrun), (Hrows df' Hrun'). do 2 f_equal.
  apply same_inputs_Forall2 in H. clear -H. revert lgds.
  induction H as [|r r' df df' Hr _ IH]; intros [|l lgds]; try done.
  cbn [zip_with fmap list_fmap]. f_equal; [|apply IH].
  clear -Hr. revert Hr.
  by destruct r, r'; cbn; intros [= -> -> -> -> -> -> -> -> -> -> -> ->].
Qed.

Lemma related_evolve_to_q4 df df' :
  same_inputs df df' → related (G := G) eq (evolve_to_q4 df) (evolve_to_q4 df').
Proof.
  intros H. unfold evolve_to_q4.
  eapply related_bind; [by apply related_evolve_blocks|].
  intros [[[det imp] L] mid] [[[det' imp'] L'] mid'] Hmid. cbn in Hmid.
  intros g. rewrite (recalculate_same mid mid' g Hmid).
  by destruct (recalculate mid' g) as [e|[out g']].
Qed.

(** X14. One evolution call reads nothing of the six risk columns of
    its input (12-month and lifetime PD, LGD, stage, ECL amount and
    rate): two input frames that agree on the other twelve columns give,
    from the same generator state, the same result, exception or snapshot
    and final state. The risk figures of Q4, the LGD included, are
    computed anew from the evolved loans; nothing of Q3's is carried
    over. *)
Theorem evolve_reads_no_risk_column df df' (g : G) :
  same_inputs df df' → evolve_to_q4 df g = evolve_to_q4 df' g.
Proof. intros H. by apply related_eq, related_evolve_to_q4. Qed.

End Related.

(** ** The stage report of [__main__] *)

Lemma value_counts_get (column : list Z) (v : Z) :
  default 0 (value_counts column !! v) = length (filter (λ x, x = v) column).
Proof.
  induction column as [|x column IH]; [done|].
  cbn [value_counts foldr]. fold (value_counts column).
  rewrite filter_cons. destruct (decide (x = v)) as [->|Hne].
  - rewrite lookup_insert_eq. cbn. by rewrite IH.
  - by rewrite lookup_insert_ne.
Qed.

Lemma stage_counts_total (df : DataFrame) :
  Forall (λ r, ifrs9_stage r = 1 ∨ ifrs9_stage r = 2 ∨ ifrs9_stage r = 3)%Z df →
  let counts := value_counts (ifrs9_stage <$> df) in
  (get_count counts 1 + get_count counts 2 + get_count counts 3)%Z
  = Z.of_nat (length df).
Proof.
  intros Hst. cbn. unfold get_count. rewrite !value_counts_get.
  induction Hst as [|r df Hr Hst IH]; [done|].
  cbn [fmap list_fmap length]. rewrite !filter_cons.
  repeat case_decide; cbn [length]; lia.
Qed.

Lemma filter_unique {A B} `{EqDecision B} (f : A → B) (l : list A) i x :
  NoDup (f <$> l) → l !! i = Some x → filter (λ y, f y = f x) l = [x].
Proof.
  revert i. induction l as [|y l IH]; intros i Hnd Hi; [done|].
  rewrite fmap_cons in Hnd. apply NoDup_cons in Hnd as [Hy Hnd].
  rewrite filter_cons. destruct i as [|i]; simplify_eq/=.
  - rewrite decide_True by done. f_equal.
    apply elem_of_nil_inv. intros z [Heq Hz]%list_elem_of_filter.
    apply Hy. rewrite <- Heq. by apply list_elem_of_fmap_2.
  - rewrite decide_False; [by eapply IH|].
    intros Heq. apply Hy. rewrite Heq. apply list_elem_of_fmap_2.
    by eapply list_elem_of_lookup_2.
Qed.

Lemma bind_singletons {A B C} (F : A → list C) (mk : A → B → C)
    (xs : list A) (ys : list B) :
  length ys = length xs →
  (∀ k x y, xs !! k = Some x → ys !! k = Some y → F x = [mk x y]) →
  xs ≫= F = zip_with mk xs ys.
Proof.
  revert ys. induction xs as [|x xs IH]; intros [|y ys] Hlen HF; try done.
  cbn [mbind list_bind zip_with]. rewrite (HF 0 x y) by done.
  cbn [app]. f_equal. apply IH; [by injection Hlen|].
  intros k. apply (HF (S k)).
Qed.

(** The join pairs row with row when the key is a key. *)
Lemma merge_zip (df_l df_r : DataFrame) :
  NoDup (loan_id <$> df_l) → loan_id <$> df_r = loan_id <$> df_l →
  pd_merge df_l df_r
  = zip_with (λ l r, {| migration_loan_id := loan_id l;
                        ifrs9_stage_q3 := ifrs9_stage l;
                        ifrs9_stage_q4 := ifrs9_stage r |}) df_l df_r.
Proof.
  intros Hnd Hids. unfold pd_merge. apply bind_singletons.
  { by rewrite <- (length_fmap loan_id df_r), Hids, length_fmap. }
  intros k l r Hl Hr.
  assert (loan_id r = loan_id l) as Hid.
  { apply (f_equal (λ ids, ids !! k)) in Hids.
    rewrite !list_lookup_fmap, Hl, Hr in Hids. by injection Hids. }
  rewrite <- Hid, (filter_unique loan_id df_r k r); [by rewrite Hid|by rewrite Hids|done].
Qed.

Lemma stage_1_balance (df_l df_r : DataFrame) :
  Forall2 (λ l r, (ifrs9_stage l = 1 ∨ ifrs9_stage l = 2 ∨ ifrs9_stage l = 3)
                  ∧ (ifrs9_stage r = 1 ∨ ifrs9_stage r = 2 ∨ ifrs9_stage r = 3)
                  ∧ (ifrs9_stage l = 3 → ifrs9_stage r ≠ 1))%Z df_l df_r →
  let migration_analysis :=
    zip_with (λ l r, {| migration_loan_id := loan_id l;
                        ifrs9_stage_q3 := ifrs9_stage l;
                        ifrs9_stage_q4 := ifrs9_stage r |}) df_l df_r in
  stage_change df_l df_r 1
  = (migrations 2 1 migration_analysis
     - migrations 1 2 migration_analysis
     - migrations 1 3 migration_analysis)%Z.
Proof.
  intros HF. cbv zeta. unfold stage_change, get_count, migrations.
  rewrite !value_counts_get.
  induction HF as [|l r df_l df_r (Hl & Hr & H31) HF IH]; [done|].
  cbn [fmap list_fmap zip_with]. rewrite !filter_cons. cbn.
  repeat case_decide; cbn [length]; lia.
Qed.

Section Report.
Context {G : Type} `{!RandomState G}.

(** X15. The stage table of the report nets to zero: for a Q3 snapshot
    the module produced and the Q4 snapshot one evolution call returns
    from it, the three changes printed for stages 1, 2 and 3 (Q4 count
    minus Q3 count, a missing stage counting 0) add up to 0. Every loan
    is in exactly one of the three stages in both snapshots, and the call
    neither adds nor drops a loan. *)
Theorem stage_changes_net_to_zero df_q3 (g : G) df_q4 g' :
  permutation_law →
  produced (G := G) df_q3 →
  evolve_to_q4 df_q3 g = inr (df_q4, g') →
  (stage_change df_q3 df_q4 1 + stage_change df_q3 df_q4 2
   + stage_change df_q3 df_q4 3 = 0)%Z.
Proof.
  intros Hlaw Hp Hrun.
  pose proof (stage_counts_total df_q3) as H3. pose proof (stage_counts_total df_q4) as H4.
  cbv zeta in H3, H4. unfold stage_change.
  rewrite <- (evolve_to_q4_length _ _ _ _ Hlaw Hrun) in H3.
  assert (∀ df, produced (G := G) df →
            Forall (λ r, ifrs9_stage r = 1 ∨ ifrs9_stage r = 2 ∨ ifrs9_stage r = 3)%Z df)
    as Hst.
  { intros df Hdf. eapply Forall_impl; [by apply produced_staged|]. by intros r [_ ?]. }
  specialize (H3 (Hst _ Hp)).
  specialize (H4 (Hst _ (evolve_to_q4_produced _ _ _ _ Hrun))). lia.
Qed.

(** X16. The loan-level migration analysis. When the loan ids of the Q3
    snapshot are distinct, the merge on [loan_id] of the Q3 snapshot and
    the Q4 snapshot evolved from it has exactly one row per loan, and the
    change printed for stage 1 is explained by three of the four
    migration counts the report prints: stage 2 to 1, minus stage 1 to 2,
    minus stage 1 to 3. The flow from stage 3 to stage 1, which the
    report does not print, is always empty. *)
Theorem migration_analysis_stage_1 df_q3 (g : G) df_q4 g' :
  permutation_law →
  produced (G := G) df_q3 →
  NoDup (loan_id <$> df_q3) →
  evolve_to_q4 df_q3 g = inr (df_q4, g') →
  let migration_analysis := pd_merge df_q3 df_q4 in
  length migration_analysis = length df_q3
  ∧ stage_change df_q3 df_q4 1
    = (migrations 2 1 migration_analysis
       - migrations 1 2 migration_analysis
       - migrations 1 3 migration_analysis)%Z.
Proof.
  intros Hlaw Hp Hnd Hrun. cbv zeta.
  pose proof (evolve_to_q4_length _ _ _ _ Hlaw Hrun) as Hlen.
  rewrite merge_zip;
    [|done|by eapply (establishes_inr _ _ _ _ _ _ (evolve_to_q4_spec df_q3 g Hlaw))].
  split; [rewrite length_zip_with; lia|].
  apply stage_1_balance.
  apply Forall2_same_length_lookup_2; [done|].
  intros i r r' Hr Hr'.
  pose proof (produced_staged df_q3 Hp) as Hst.
  rewrite Forall_forall in Hst. destruct (Hst r) as [_ H123].
  { by eapply list_elem_of_lookup_2. }
  pose proof (produced_staged df_q4 (evolve_to_q4_produced _ _ _ _ Hrun)) as Hst'.
  rewrite Forall_forall in Hst'. destruct (Hst' r') as [_ H123'].
  { by eapply list_elem_of_lookup_2. }
  split_and!; [done|done|]. intros H3.
  destruct (late_loans_row df_q3 g df_q4 g' i r r' Hlaw Hrun Hr Hr') as [_ Hlate].
  destruct (Hlate Hp H3) as [->| ->]; done.
Qed.

End Report.

(** ** The properties of the evolution on the sample *)

Lemma evolve_keeps_static_columns_sample :
  match evolve_to_q4 sample_q3 (seed 42) with
  | inr (df_q4, _) =>
      rows_rel (λ _ r r', static_columns r' = static_columns r
                          ∧ reporting_date r' = Date 2024 12 31) sample_q3 df_q4
  | inl _ => False
  end.
Proof.
  destruct (evolve_to_q4 sample_q3 (seed 42)) as [e|[df_q4 g']] eqn:Hrun.
  - vm_compute in Hrun. discriminate.
  - exact (evolve_keeps_static_columns sample_q3 (seed 42) df_q4 g'
             lcg_permutation_law Hrun).
Defined.

Lemma evolve_balances_sample :
  match evolve_to_q4 sample_q3 (seed 42) with
  | inr (df_q4, _) =>
      rows_rel (λ i r r',
          outstanding_balance r'
          = Py.round 2 (outstanding_balance r
                        * scale 0.96 0.99 (draw i (seed 42)))%float)
        sample_q3 df_q4
  | inl _ => False
  end.
Proof.
  destruct (evolve_to_q4 sample_q3 (seed 42)) as [e|[df_q4 g']] eqn:Hrun.
  - vm_compute in Hrun. discriminate.
  - exact (evolve_balances sample_q3 (seed 42) df_q4 g' lcg_permutation_law Hrun).
Defined.

Lemma evolve_scores_sample :
  match evolve_blocks sample_q3 (seed 42), evolve_to_q4 sample_q3 (seed 42) with
  | inr (det, imp, _, _, _), inr (df_q4, _) =>
      rows_rel (λ i r r',
          (i ∉ det → i ∉ imp → credit_score_current r' = credit_score_current r)
          ∧ (i ∈ det → 300 ≤ credit_score_current r')%Z
          ∧ (i ∈ imp → credit_score_current r' ≤ 850)%Z) sample_q3 df_q4
  | _, _ => False
  end.
Proof.
  destruct (evolve_blocks sample_q3 (seed 42)) as [e|[[[[det imp] L] mid] g1]] eqn:Hb.
  { vm_compute in Hb. discriminate. }
  destruct (evolve_to_q4 sample_q3 (seed 42)) as [e|[df_q4 g']] eqn:Hrun.
  { vm_compute in Hrun. discriminate. }
  exact (evolve_scores sample_q3 (seed 42) det imp L mid g1 df_q4 g'
           lcg_permutation_law Hb Hrun).
Defined.

Lemma evolve_dpd_selections_sample :
  match evolve_blocks sample_q3 (seed 40), evolve_to_q4 sample_q3 (seed 40) with
  | inr (_, _, L, _, _), inr (df_q4, _) =>
      rows_rel (λ i r r',
          ∃ rc, df_after_worsening_60 L !! i = Some rc
            ∧ (days_past_due r ≤ days_past_due rc)%Z
            ∧ (days_past_due r' ≤ days_past_due rc)%Z
            ∧ (i ∉ newly_delinquent L → i ∉ worsening_30 L → i ∉ worsening_60 L →
               days_past_due rc = days_past_due r)
            ∧ (i ∉ curing L → days_past_due r' = days_past_due rc)) sample_q3 df_q4
  | _, _ => False
  end.
Proof.
  destruct (evolve_blocks sample_q3 (seed 40)) as [e|[[[[det imp] L] mid] g1]] eqn:Hb.
  { vm_compute in Hb. discriminate. }
  destruct (evolve_to_q4 sample_q3 (seed 40)) as [e|[df_q4 g']] eqn:Hrun.
  { vm_compute in Hrun. discriminate. }
  exact (evolve_dpd_selections sample_q3 (seed 40) det imp L mid g1 df_q4 g'
           lcg_permutation_law Hb Hrun).
Defined.

Lemma evolve_dpd_transitions_sample :
  match evolve_to_q4 sample_q3 (seed 40) with
  | inr (df_q4, _) =>
      rows_rel (λ _ r r',
          let d := days_past_due r in
          let d' := days_past_due r' in
          (d = 0 → d' ∈ [0; 30; 60; 90; 120])%Z
          ∧ (d = 30 → d' ∈ [0; 30; 60; 90; 120])%Z
          ∧ (d = 60 → d' ∈ [30; 60; 90; 120])%Z
          ∧ (90 ≤ d → d' = d ∨ d' = 60)%Z
          ∧ (d ≠ 0 → d ≠ 30 → d ≠ 60 → d < 90 → d' = d)%Z) sample_q3 df_q4
  | inl _ => False
  end.
Proof.
  destruct (evolve_to_q4 sample_q3 (seed 40)) as [e|[df_q4 g']] eqn:Hrun.
  - vm_compute in Hrun. discriminate.
  - exact (evolve_dpd_transitions sample_q3 (seed 40) df_q4 g'
             lcg_permutation_law Hrun).
Defined.

Lemma late_loans_stay_staged_sample :
  match evolve_to_q4 sample_q3 (seed 40) with
  | inr (df_q4, _) =>
      rows_rel (λ _ r r',
          (60 ≤ days_past_due r)%Z ∨ ifrs9_stage r = 3%Z →
          ifrs9_stage r' = 2%Z ∨ ifrs9_stage r' = 3%Z) sample_q3 df_q4
  | inl _ => False
  end.
Proof.
  destruct (evolve_to_q4 sample_q3 (seed 40)) as [e|[df_q4 g']] eqn:Hrun.
  - vm_compute in Hrun. discriminate.
  - exact (late_loans_stay_staged sample_q3 (seed 40) df_q4 g'
             lcg_permutation_law sample_q3_produced Hrun).
Defined.

Lemma weighted_draws_thresholds_sample :
  let u := (random_sample (seed 40)).1 in
  let g' := (random_sample (seed 40)).2 in
  choice_p [30; 60]%Z [0.7; 0.3]%float (seed 40)
  = inr (if (0.7 <=? u)%float then 60 else 30, g')%Z
  ∧ choice_p [60; 90]%Z [0.6; 0.4]%float (seed 40)
    = inr (if (0.6 <=? u)%float then 90 else 60, g')%Z
  ∧ choice_p [90; 120]%Z [0.7; 0.3]%float (seed 40)
    = inr (if (0.7 <=? u)%float then 120 else 90, g')%Z.
Proof.
  apply (weighted_draws_thresholds (G := Z) (seed 40)). vm_compute. reflexivity.
Defined.

(** The base portfolio and the Q3 snapshot computed from it differ in
    the risk columns only: evolving either gives the same Q4 snapshot. *)
Lemma evolve_reads_no_risk_column_sample :
  evolve_to_q4 sample_portfolio (seed 42) = evolve_to_q4 sample_q3 (seed 42).
Proof.
  apply (evolve_reads_no_risk_column (G := Z) sample_portfolio sample_q3 (seed 42)).
  vm_compute. reflexivity.
Defined.

Lemma stage_changes_net_to_zero_sample :
  match evolve_to_q4 sample_q3 (seed 42) with
  | inr (df_q4, _) =>
      (stage_change sample_q3 df_q4 1 + stage_change sample_q3 df_q4 2
       + stage_change sample_q3 df_q4 3 = 0)%Z
  | inl _ => False
  end.
Proof.
  destruct (evolve_to_q4 sample_q3 (seed 42)) as [e|[df_q4 g']] eqn:Hrun.
  - vm_compute in Hrun. discriminate.
  - exact (stage_changes_net_to_zero sample_q3 (seed 42) df_q4 g'
             lcg_permutation_law sample_q3_produced Hrun).
Defined.

Lemma sample_q3_loan_ids : NoDup (loan_id <$> sample_q3).
Proof. refine (bool_decide_unpack _ _). vm_compute. exact I. Qed.

Lemma migration_analysis_stage_1_sample :
  match evolve_to_q4 sample_q3 (seed 42) with
  | inr (df_q4, _) =>
      length (pd_merge sample_q3 df_q4) = length sample_q3
      ∧ stage_change sample_q3 df_q4 1
        = (migrations 2 1 (pd_merge sample_q3 df_q4)
           - migrations 1 2 (pd_merge sample_q3 df_q4)
           - migrations 1 3 (pd_merge sample_q3 df_q4))%Z
  | inl _ => False
  end.
Proof.
  destruct (evolve_to_q4 sample_q3 (seed 42)) as [e|[df_q4 g']] eqn:Hrun.
  - vm_compute in Hrun. discriminate.
  - exact (migration_analysis_stage_1 sample_q3 (seed 42) df_q4 g'
             lcg_permutation_law sample_q3_produced sample_q3_loan_ids Hrun).
Defined.
